(** * Pulse schedules: the schedule tree, its composition operators,
      the alignment functions and the phase-offset context

    A shallow embedding of

      - [qiskit/pulse/schedule.py]   (class [Schedule]),
      - [qiskit/pulse/ops.py]        ([union], [shift], [insert], [append]),
      - [qiskit/pulse/alignment.py]  ([push_append], [left_align],
                                      [right_align], [align_in_sequence]),
      - [qiskit/pulse/builder.py]    ([phase_offset], [shift_phase] and the
                                      builder methods they reach; the
                                      lazily built circuit;
                                      [_qubits_to_channels]),
      - [qiskit/pulse/commands/pulse_command.py]
                                     (the constructor of [PulseCommand]),
      - [qiskit/pulse/cmd_def.py]    ([_to_qubit_tuple], class [CmdDef]).

    Python objects live in an explicit store and are passed by reference;
    every function is a computation in a state-and-exception monad, so
    that both "what is returned" and "what is left untouched" can be
    stated.  Keyword arguments are bound against the signature of the
    callee as Python does it: a keyword the callee does not declare
    raises [TypeError] before the body runs. *)

From Stdlib Require Import ZArith List String Bool Lia Floats.
From Stdlib Require DecimalString DecimalNat DecimalZ.
Import ListNotations.
Open Scope string_scope.
Open Scope list_scope.
Open Scope Z_scope.

Set Implicit Arguments.

(* ================================================================== *)
(** ** Exceptions and the state-and-exception monad *)

Inductive exn : Type :=
| TypeError (unexpected_keyword : string)
    (** [f() got an unexpected keyword argument '...'] *)
| AttributeError (attribute : string)
| PulseError (message : string)
| EmptyChannelSet
| NoActiveBuilder
| BackendNotSet
| IndexError
| ReferenceError
    (** a reference that is not in the store; no Python program
        produces one, the model needs it to stay total *).

Definition is_PulseError (e : exn) : bool :=
  match e with PulseError _ => true | _ => false end.

Inductive result (A : Type) : Type :=
| Ok (a : A)
| Raise (e : exn).

Arguments Ok {A} a.
Arguments Raise {A} e.

(** A computation reads and writes a state [S]; the state written
    before an exception is raised stays written, as in Python. *)
Definition M (S A : Type) : Type := S -> result A * S.

Definition ret {S A} (a : A) : M S A := fun s => (Ok a, s).

Definition raise {S A} (e : exn) : M S A := fun s => (Raise e, s).

Definition bind {S A B} (c : M S A) (k : A -> M S B) : M S B :=
  fun s =>
    match c s with
    | (Ok a, s') => k a s'
    | (Raise e, s') => (Raise e, s')
    end.

Definition lift_result {S A} (r : result A) : M S A := fun s => (r, s).

Declare Scope py_scope.
Delimit Scope py_scope with py.
Notation "x <- c ;; k" := (bind c (fun x => k))
  (at level 61, c at next level, right associativity) : py_scope.
Notation "c ;;; k" := (bind c (fun _ => k))
  (at level 61, right associativity) : py_scope.
Open Scope py_scope.

(** [for x in l: f(x)], collecting what each iteration computes. *)
Fixpoint for_each {S A B} (l : list A) (f : A -> M S B) : M S (list B) :=
  match l with
  | [] => ret []
  | x :: l' => y <- f x ;; ys <- for_each l' f ;; ret (y :: ys)
  end.

(** [for x in l: acc = f(acc, x)]. *)
Fixpoint for_fold {S A B} (l : list A) (f : B -> A -> M S B) (acc : B) : M S B :=
  match l with
  | [] => ret acc
  | x :: l' => acc' <- f acc x ;; for_fold l' f acc'
  end.

(* ================================================================== *)
(** ** Channels, intervals, timeslots *)

(** [PulseChannel.__eq__]: same class and same index. *)
Record Channel : Type := mkChannel { ch_class : string; ch_index : Z }.

Definition Channel_eqb (a b : Channel) : bool :=
  String.eqb (ch_class a) (ch_class b) && Z.eqb (ch_index a) (ch_index b).

Definition mem_channel (c : Channel) (l : list Channel) : bool :=
  existsb (Channel_eqb c) l.

(** [Interval(begin, end)], the half-open range [[begin, end)];
    [Timeslot(interval, channel)] (both as [acquire.py] builds them). *)
Record Interval : Type := mkInterval { i_begin : Z; i_end : Z }.
Record Timeslot : Type := mkTimeslot { ts_interval : Interval; ts_channel : Channel }.

Definition Interval_shift (dt : Z) (i : Interval) : Interval :=
  mkInterval (i_begin i + dt) (i_end i + dt).

Definition Timeslot_shift (dt : Z) (t : Timeslot) : Timeslot :=
  mkTimeslot (Interval_shift dt (ts_interval t)) (ts_channel t).

(** Modelled from the spec: [Interval.has_overlap] of the missing
    [qiskit/pulse/timeslots.py]; two half-open intervals overlap when
    each begins before the other ends. *)
Definition has_overlap (a b : Interval) : bool :=
  (i_begin a <? i_end b) && (i_begin b <? i_end a).

(** Modelled from the spec: two timeslots collide when they are on the
    same channel and their intervals overlap. *)
Definition collide (x y : Timeslot) : bool :=
  Channel_eqb (ts_channel x) (ts_channel y)
  && has_overlap (ts_interval x) (ts_interval y).

(** Modelled from the spec: the invariant of an occupancy collection,
    no two timeslots of the list collide. *)
Fixpoint collision_free (l : list Timeslot) : bool :=
  match l with
  | [] => true
  | x :: l' => forallb (fun y => negb (collide x y)) l' && collision_free l'
  end.

(** Class [TimeslotCollection] of the missing
    [qiskit/pulse/timeslots.py], the spec's "Occupancy Collection". *)
Module TimeslotCollection.

(** Modelled from the spec: "a set of Timeslots, indexed per channel". *)
Definition t : Type := list Timeslot.

(** Modelled from the spec: the constructor, "collision-checked at
    construction"; it fails when two of the timeslots collide. *)
Definition init (slots : list Timeslot) : result t :=
  if collision_free slots then Ok slots
  else Raise (PulseError "Overlapping timeslots").

(** Modelled from the spec: the timeslots of the collection. *)
Definition timeslots (c : t) : list Timeslot := c.

(** Modelled from the spec: "adds dt to every interval's start and
    stop; never fails". *)
Definition shift (c : t) (dt : Z) : t := map (Timeslot_shift dt) c.

Fixpoint nodup_channels (l : list Channel) : list Channel :=
  match l with
  | [] => []
  | c :: l' =>
      if mem_channel c l' then nodup_channels l' else c :: nodup_channels l'
  end.

(** Modelled from the spec: the channels that occur, each once. *)
Definition channels (c : t) : list Channel :=
  nodup_channels (map ts_channel c).

Definition intervals_on (c : t) (chs : list Channel) : list Interval :=
  map ts_interval (filter (fun s => mem_channel (ts_channel s) chs) c).

Definition min_begin (i : Interval) (l : list Interval) : Z :=
  fold_right (fun j acc => Z.min (i_begin j) acc) (i_begin i) l.

Definition max_end (i : Interval) (l : list Interval) : Z :=
  fold_right (fun j acc => Z.max (i_end j) acc) (i_end i) l.

(** Modelled from the spec: "min over the given channels' intervals;
    fails with EmptyChannelSet if none of the channels appear". *)
Definition ch_start_time (c : t) (chs : list Channel) : result Z :=
  match intervals_on c chs with
  | [] => Raise EmptyChannelSet
  | i :: l => Ok (min_begin i l)
  end.

(** Modelled from the spec: "max over the given channels' intervals;
    fails with EmptyChannelSet if none of the channels appear". *)
Definition ch_stop_time (c : t) (chs : list Channel) : result Z :=
  match intervals_on c chs with
  | [] => Raise EmptyChannelSet
  | i :: l => Ok (max_end i l)
  end.

(** Modelled from the spec: the global earliest start.  The spec does
    not say what it is for the empty collection; 0 is taken. *)
Definition start_time (c : t) : Z :=
  match map ts_interval c with
  | [] => 0
  | i :: l => min_begin i l
  end.

(** Modelled from the spec: the global latest stop, 0 for the empty
    collection. *)
Definition stop_time (c : t) : Z :=
  match map ts_interval c with
  | [] => 0
  | i :: l => max_end i l
  end.

(** Modelled from the spec: the duration of a collection is its latest
    stop, as [right_align] uses it ([duration - start_time] is a
    channel's span). *)
Definition duration (c : t) : Z := stop_time c.

End TimeslotCollection.

(* ================================================================== *)
(** ** Objects and the store *)

(** A reference is a position in the store. *)
Definition ref : Type := nat.

(** What a leaf does; the scheduler never looks at it. *)
Inductive command : Type :=
| ShiftPhase (phase : float)
| OtherCommand (label : string).

(** Modelled from the spec: the leaf class ([Instruction], of the
    missing [interfaces.py] and [instructions]), the first constructor;
    a leaf carries a name, an opaque payload, a fixed duration and the
    occupancy of its channels over that duration.

    The second constructor is an instance of [Schedule], with the four
    attributes [Schedule.__init__] sets: [_name], [_shift],
    [_timeslots], [_children]. *)
Inductive pyobj : Type :=
| InstructionObj (name : option string) (cmd : command) (duration : Z)
                 (timeslots : TimeslotCollection.t)
| ScheduleObj (_name : option string) (_shift : Z)
              (_timeslots : TimeslotCollection.t) (_children : list ref).

Definition store : Type := list pyobj.

Definition alloc (o : pyobj) : M store ref :=
  fun s => (Ok (List.length s), (s ++ [o])).

Definition load (r : ref) : M store pyobj :=
  fun s =>
    match nth_error s r with
    | Some o => (Ok o, s)
    | None => (Raise ReferenceError, s)
    end.

Definition obj_name (o : pyobj) : option string :=
  match o with
  | InstructionObj n _ _ _ => n
  | ScheduleObj n _ _ _ => n
  end.

Definition obj_timeslots (o : pyobj) : TimeslotCollection.t :=
  match o with
  | InstructionObj _ _ _ ts => ts
  | ScheduleObj _ _ ts _ => ts
  end.

Definition obj_children (o : pyobj) : list ref :=
  match o with
  | InstructionObj _ _ _ _ => []
  | ScheduleObj _ _ _ cs => cs
  end.

(** Modelled from the spec: creating a leaf.  Its occupancy is the
    interval [[0, duration)] on each of its channels, built as
    [AcquireInstruction.__init__] builds its slots. *)
Definition Instruction_init (name : option string) (cmd : command)
    (duration : Z) (channels : list Channel) : M store ref :=
  let slots := map (fun ch => mkTimeslot (mkInterval 0 duration) ch) channels in
  ts <- lift_result (TimeslotCollection.init slots) ;;
  alloc (InstructionObj name cmd duration ts).

(* ================================================================== *)
(** ** Keyword arguments *)

(** The keyword arguments that occur at the call sites of the modelled
    code, with the type of value each call site passes. *)
Inductive kwarg : Type :=
| kw_shift (v : Z)
| kw_shift_time (v : Z)
| kw_name (v : option string)
| kw_mutate (v : bool).

Definition kwarg_name (k : kwarg) : string :=
  match k with
  | kw_shift _ => "shift"
  | kw_shift_time _ => "shift_time"
  | kw_name _ => "name"
  | kw_mutate _ => "mutate"
  end.

(** A callee that declares none of these keywords, and no catch-all
    keyword parameter, rejects the first keyword it is given. *)
Definition no_keywords (kws : list kwarg) : result unit :=
  match kws with
  | [] => Ok tt
  | k :: _ => Raise (TypeError (kwarg_name k))
  end.

(* ================================================================== *)
(** ** [schedule.py]: class [Schedule], constructor and properties *)

Module Schedule.

(** The loop of [__init__]: [sched.timeslots], shifted when [shift] is
    non-zero, then its [.timeslots]. *)
Definition child_timeslots (shift : Z) (sched : ref) : M store (list Timeslot) :=
  o <- load sched ;;
  let sched_timeslots := obj_timeslots o in
  let sched_timeslots :=
    if shift =? 0 then sched_timeslots
    else TimeslotCollection.shift sched_timeslots shift in
  ret (TimeslotCollection.timeslots sched_timeslots).

(** The body of [__init__(self, *schedules, shift=0, name=None)] once
    its parameters are bound.  A [PulseError] of the collection is
    re-raised as the constructor's own; the object is kept only when
    the constructor returns. *)
Definition init (schedules : list ref) (shift : Z) (name : option string)
  : M store ref :=
  timeslots <- for_each schedules (child_timeslots shift) ;;
  match TimeslotCollection.init (List.concat timeslots) with
  | Ok ts => alloc (ScheduleObj name shift ts schedules)
  | Raise (PulseError _) => raise (PulseError "Child schedules overlap.")
  | Raise e => raise e
  end.

(** Binding the keyword arguments of a call [Schedule(..schedules, ..kws)]
    against the signature: [shift] and [name] are the only keywords. *)
Fixpoint bind_keywords (kws : list kwarg) (shift : Z) (name : option string)
  : result (Z * option string) :=
  match kws with
  | [] => Ok (shift, name)
  | kw_shift v :: kws' => bind_keywords kws' v name
  | kw_name v :: kws' => bind_keywords kws' shift v
  | k :: _ => Raise (TypeError (kwarg_name k))
  end.

(** The call [Schedule(..schedules, ..kws)]. *)
Definition new (schedules : list ref) (kws : list kwarg) : M store ref :=
  match bind_keywords kws 0 None with
  | Ok (shift, name) => init schedules shift name
  | Raise e => raise e
  end.

(** Properties.  They read [self.timeslots]; a leaf answers them from
    its own occupancy. *)
Definition name (self : ref) : M store (option string) :=
  o <- load self ;; ret (obj_name o).

Definition timeslots (self : ref) : M store TimeslotCollection.t :=
  o <- load self ;; ret (obj_timeslots o).

Definition duration (self : ref) : M store Z :=
  ts <- timeslots self ;; ret (TimeslotCollection.duration ts).

Definition start_time (self : ref) : M store Z :=
  ts <- timeslots self ;; ret (TimeslotCollection.start_time ts).

Definition stop_time (self : ref) : M store Z :=
  ts <- timeslots self ;; ret (TimeslotCollection.stop_time ts).

Definition channels (self : ref) : M store (list Channel) :=
  ts <- timeslots self ;; ret (TimeslotCollection.channels ts).

Definition children (self : ref) : M store (list ref) :=
  o <- load self ;; ret (obj_children o).

(** [ch_duration] returns [self.timeslots.ch_start_time(..channels)]. *)
Definition ch_duration (self : ref) (chs : list Channel) : M store Z :=
  ts <- timeslots self ;;
  lift_result (TimeslotCollection.ch_start_time ts chs).

Definition ch_start_time (self : ref) (chs : list Channel) : M store Z :=
  ts <- timeslots self ;;
  lift_result (TimeslotCollection.ch_start_time ts chs).

Definition ch_stop_time (self : ref) (chs : list Channel) : M store Z :=
  ts <- timeslots self ;;
  lift_result (TimeslotCollection.ch_stop_time ts chs).

End Schedule.

(* ================================================================== *)
(** ** [ops.py] *)

Module ops.

(** [union(..schedules, shift_time=0, name=None)]: the name defaults to
    that of the first schedule; the constructor is called with the
    keywords [shift_time] and [name]. *)
Definition union (schedules : list ref) (shift_time : Z)
    (name : option string) : M store ref :=
  name <- match name, schedules with
          | None, first :: _ => Schedule.name first
          | _, _ => ret name
          end ;;
  Schedule.new schedules [kw_shift_time shift_time; kw_name name].

(** [shift(schedule, time, name=None)]. *)
Definition shift (schedule : ref) (time : Z) (name : option string)
  : M store ref :=
  name <- match name with
          | None => Schedule.name schedule
          | Some _ => ret name
          end ;;
  Schedule.new [schedule] [kw_shift_time time; kw_name name].

(** [insert(parent, start_time, child, name=None)]:
    [union(parent, shift(child, start_time), name=name)]. *)
Definition insert (parent : ref) (start_time : Z) (child : ref)
    (name : option string) : M store ref :=
  shifted <- shift child start_time None ;;
  union [parent; shifted] 0 name.

(** [set(parent.channels) & set(child.channels)]. *)
Definition common_channels (parent child : list Channel) : list Channel :=
  filter (fun c => mem_channel c child) parent.

(** [append(parent, child, name=None)]. *)
Definition append (parent child : ref) (name : option string) : M store ref :=
  pcs <- Schedule.channels parent ;;
  ccs <- Schedule.channels child ;;
  let common := common_channels pcs ccs in
  insertion_time <- Schedule.ch_stop_time parent common ;;
  insert parent insertion_time child name.

End ops.

(** The methods of [Schedule] that delegate to [ops] ([schedule.py]
    imports [ops], [ops.py] imports [Schedule]).  None of them declares
    a keyword parameter. *)
Definition Schedule_union (self : ref) (schedules : list ref) : M store ref :=
  ops.union (self :: schedules) 0 None.

Definition Schedule_shift (self : ref) (time : Z) : M store ref :=
  ops.shift self time None.

Definition Schedule_insert (self : ref) (start_time : Z) (schedule : ref)
    (kws : list kwarg) : M store ref :=
  lift_result (no_keywords kws) ;;;
  ops.insert self start_time schedule None.

Definition Schedule_append (self : ref) (schedule : ref) (kws : list kwarg)
  : M store ref :=
  lift_result (no_keywords kws) ;;;
  ops.append self schedule None.

(** The names an instance of [Schedule] answers to: the attributes
    [__init__] sets and the properties and methods of the class.  Any
    other attribute raises [AttributeError]. *)
Definition Schedule_attributes : list string :=
  ["_name"; "_shift"; "_timeslots"; "_children";
   "name"; "timeslots"; "duration"; "start_time"; "stop_time";
   "channels"; "children"; "ch_duration"; "ch_start_time"; "ch_stop_time";
   "union"; "shift"; "insert"; "append"; "flatten"].

Definition Schedule_getattr (attr : string) : result unit :=
  if existsb (String.eqb attr) Schedule_attributes then Ok tt
  else Raise (AttributeError attr).

(* ================================================================== *)
(** ** [alignment.py] *)

Module alignment.

(** [np.argmin]: the position of the first least element. *)
Fixpoint argmin_from (best_i : nat) (best : Z) (i : nat) (l : list Z) : nat :=
  match l with
  | [] => best_i
  | x :: l' =>
      if x <? best then argmin_from i x (S i) l'
      else argmin_from best_i best (S i) l'
  end.

Definition argmin (l : list Z) : nat :=
  match l with
  | [] => 0%nat
  | x :: l' => argmin_from 0%nat x 1%nat l'
  end.

(** One element of [ch_slacks]. *)
Definition ch_slack (this other : ref) (channel : Channel) : M store Z :=
  st <- Schedule.stop_time this ;;
  cst <- Schedule.ch_stop_time this [channel] ;;
  ost <- Schedule.ch_start_time other [channel] ;;
  ret (st - cst + ost).

(** The value of [insert_time] in [push_append].  The set intersection
    is listed in the order of [this.channels]. *)
Definition insert_time (this other : ref) : M store Z :=
  tcs <- Schedule.channels this ;;
  ocs <- Schedule.channels other ;;
  let channels := ops.common_channels tcs ocs in
  ch_slacks <- for_each channels (ch_slack this other) ;;
  match ch_slacks with
  | [] => ret 0
  | _ :: _ =>
      match nth_error channels (argmin ch_slacks) with
      | Some slack_chan =>
          cst <- Schedule.ch_stop_time this [slack_chan] ;;
          ost <- Schedule.ch_start_time other [slack_chan] ;;
          ret (cst - ost)
      | None => raise IndexError
      end
  end.

(** [push_append(this, other)]: [this.insert(insert_time, other)]. *)
Definition push_append (this other : ref) : M store ref :=
  t <- insert_time this other ;;
  Schedule_insert this t other [].

(** [left_align(..instructions)]. *)
Definition left_align (instructions : list ref) : M store ref :=
  aligned <- Schedule.new [] [] ;;
  for_fold instructions push_append aligned.

(** [right_align(..instructions)].  [Schedule] has neither [filter] nor
    [instructions]: the first pass of the first loop raises at
    [left_aligned.filter], and the header of the second loop raises at
    [left_aligned.instructions], so neither loop body has anything
    further to run. *)
Definition right_align (instructions : list ref) : M store ref :=
  left_aligned <- left_align instructions ;;
  chans <- Schedule.channels left_aligned ;;
  for_each chans (fun _ => lift_result (Schedule_getattr "filter")) ;;;
  aligned <- Schedule.new [] [] ;;
  lift_result (Schedule_getattr "instructions") ;;;
  ret aligned.

(** [align_in_sequence(..instructions)]: each pass calls
    [aligned.insert(aligned.duration, instruction, mutate=True)] and
    drops what it returns; [aligned] is never rebound. *)
Definition align_in_sequence (instructions : list ref) : M store ref :=
  aligned <- Schedule.new [] [] ;;
  for_each instructions
    (fun instruction =>
       d <- Schedule.duration aligned ;;
       Schedule_insert aligned d instruction [kw_mutate true]) ;;;
  ret aligned.

End alignment.

(* ================================================================== *)
(** ** [builder.py] *)

Module builder.

(** The external collaborators of the builder: a backend gives the
    number of qubits, and transpiling and scheduling a circuit on it
    gives a schedule. *)
Record Backend : Type := mkBackend {
  n_qubits : Z;
  compile_and_schedule : list string -> M store ref
}.

(** The fields of [_PulseBuilder] the modelled methods read or write.
    A circuit is the list of its gates; it is true when not empty. *)
Record PulseBuilder : Type := mkBuilder {
  _backend : option Backend;
  _block : ref;
  _lazy_circuit : option (list string);
  _schedule : ref
}.

(** The state of a builder program: what [BUILDER_CONTEXTVAR] holds (the
    one builder object, with its fields) and the store. *)
Definition state : Type := (option PulseBuilder * store)%type.

Definition lift_store {A} (c : M store A) : M state A :=
  fun s => let (r, h) := c (snd s) in (r, (fst s, h)).

(** [_active_builder()]. *)
Definition _active_builder : M state PulseBuilder :=
  fun s =>
    match fst s with
    | Some b => (Ok b, s)
    | None => (Raise NoActiveBuilder, s)
    end.

Definition set_builder (b : PulseBuilder) : M state unit :=
  fun s => (Ok tt, (Some b, snd s)).

(** [self.block.append(x, mutate=True)], the body of both
    [append_block] and [append_instruction]. *)
Definition block_append (x : ref) : M state unit :=
  self <- _active_builder ;;
  lift_store (Schedule_append (_block self) x [kw_mutate true]) ;;;
  ret tt.

(** [_compile_lazy_circuit(self)].  [call_schedule] runs [append_block],
    whose decorator runs [_compile_lazy_circuit] again: the lazy circuit
    is by then the new, empty one, so that second run does nothing. *)
Definition _compile_lazy_circuit : M state unit :=
  self <- _active_builder ;;
  match _lazy_circuit self with
  | Some (g :: gs) =>
      match _backend self with
      | None => raise BackendNotSet
      | Some backend =>
          set_builder (mkBuilder (_backend self) (_block self) (Some [])
                                 (_schedule self)) ;;;
          sched <- lift_store (compile_and_schedule backend (g :: gs)) ;;
          block_append sched
      end
  | _ => ret tt
  end.

(** [_PulseBuilder.append_instruction], behind its decorator. *)
Definition PulseBuilder_append_instruction (instruction : ref) : M state unit :=
  _compile_lazy_circuit ;;;
  block_append instruction.

(** [append_instruction(instruction)]. *)
Definition append_instruction (instruction : ref) : M state unit :=
  _active_builder ;;;
  PulseBuilder_append_instruction instruction.

(** Modelled from the spec: [instructions.ShiftPhase(phase, channel)]
    of the missing [instructions] package, a leaf of duration 0 on
    [channel] that carries the phase. *)
Definition new_ShiftPhase (phase : float) (channel : Channel) : M store ref :=
  Instruction_init None (ShiftPhase phase) 0 [channel].

(** [shift_phase(phase, channel)]. *)
Definition shift_phase (phase : float) (channel : Channel) : M state unit :=
  instruction <- lift_store (new_ShiftPhase phase channel) ;;
  append_instruction instruction.

(** [try: body finally: final]. *)
Definition try_finally {A} (body : M state A) (final : M state unit)
  : M state A :=
  fun s =>
    match body s with
    | (r, s') =>
        match final s' with
        | (Ok _, s'') => (r, s'')
        | (Raise e, s'') => (Raise e, s'')
        end
    end.

(** [with phase_offset(phase, channel): body]. *)
Definition phase_offset {A} (phase : float) (channel : Channel)
    (body : M state A) : M state A :=
  shift_phase phase channel ;;;
  try_finally body (shift_phase (PrimFloat.opp phase) channel).

(** What [with build(): ...] has done when its body starts, for the
    default arguments: [__init__] creates the root schedule and a first
    active block, [__enter__] binds the context variable and enters the
    default left-alignment context, which makes a new empty schedule
    the active block. *)
Definition build_enter (backend : option Backend) : M state unit :=
  schedule <- lift_store (Schedule.new [] []) ;;
  block <- lift_store (Schedule.new [] []) ;;
  set_builder (mkBuilder backend block None schedule) ;;;
  transform_block <- lift_store (Schedule.new [] []) ;;
  _compile_lazy_circuit ;;;
  set_builder (mkBuilder backend transform_block None schedule).

End builder.

(* ================================================================== *)
(** ** Predicates used in the statements *)

(** Every object of [s] is still there, unchanged, in [s']: same name,
    same shift, same timeslots, same children. *)
Definition unmodified (s s' : store) : Prop :=
  forall r o, nth_error s r = Some o -> nth_error s' r = Some o.

(** What a run returned, if it returned, is an object that was not in
    the store before the run. *)
Definition returns_new (s : store) (out : result ref * store) : Prop :=
  forall r, fst out = Ok r ->
    nth_error s r = None /\ exists o, nth_error (snd out) r = Some o.

(** The store after any run of [c] is the store before it followed by
    the objects the run created. *)
Definition only_allocates {A} (c : M store A) : Prop :=
  forall s, exists created, snd (c s) = (s ++ created).

(** A reference [c] returns was allocated during the run. *)
Definition allocates_result (c : M store ref) : Prop :=
  forall s, returns_new s (c s).

(** The run raised something else than a [PulseError] and left the
    store as it was. *)
Definition fails_quietly {A} (c : M store A) (s : store) : Prop :=
  exists e, c s = (Raise e, s) /\ is_PulseError e = false.

(** [c] only reads the store, and raises no [PulseError]. *)
Definition reads {A} (c : M store A) : Prop :=
  forall s, exists r,
    c s = (r, s) /\ forall e, r = Raise e -> is_PulseError e = false.

(** All objects of the store have a collision-free occupancy. *)
Definition store_wf (s : store) : Prop :=
  Forall (fun o => collision_free (obj_timeslots o) = true) s.

(** The timeslots of the object [r] refers to. *)
Definition slots_of (s : store) (r : ref) : list Timeslot :=
  match nth_error s r with
  | Some o => obj_timeslots o
  | None => []
  end.

(** The timeslots of the child at position [i] of [schedules]. *)
Definition child_slots (s : store) (schedules : list ref) (i : nat)
  : list Timeslot :=
  match nth_error schedules i with
  | Some r => slots_of s r
  | None => []
  end.

(** Every reference of the list is in the store. *)
Definition valid_refs (s : store) (l : list ref) : Prop :=
  Forall (fun r => nth_error s r <> None) l.

(** Two different children, shifted by [shift], hold colliding timeslots. *)
Definition children_collide (s : store) (schedules : list ref) (shift : Z)
  : Prop :=
  exists i j x y,
    (i < j)%nat
    /\ In x (TimeslotCollection.shift (child_slots s schedules i) shift)
    /\ In y (TimeslotCollection.shift (child_slots s schedules j) shift)
    /\ collide x y = true.

(* ================================================================== *)
(** ** Concrete programs *)

Definition d0 : Channel := mkChannel "DriveChannel" 0.
Definition d1 : Channel := mkChannel "DriveChannel" 1.
Definition d2 : Channel := mkChannel "DriveChannel" 2.

(** A leaf of duration [n] on channel [ch]. *)
Definition play (n : Z) (ch : Channel) : M store ref :=
  Instruction_init (Some "play") (OtherCommand "play") n [ch].

(** A 100-unit leaf on [d0] (reference 0) and a 20-unit leaf on [d1]
    (reference 1). *)
Definition store_100_20 : store :=
  Eval vm_compute in snd ((play 100 d0 ;;; play 20 d1) []).

(** Three leaves of duration 10 on three channels (references 0, 1, 2). *)
Definition store_10_10_10 : store :=
  Eval vm_compute in snd ((play 10 d0 ;;; play 10 d1 ;;; play 10 d2) []).

(** A 10-unit leaf (reference 0) and a 20-unit leaf (reference 1), both
    on [d0]. *)
Definition store_same_channel : store :=
  Eval vm_compute in snd ((play 10 d0 ;;; play 20 d0) []).

(** A 100-unit leaf on [d0] (reference 0) and the schedule that holds
    it shifted by 5, built by the constructor (reference 1). *)
Definition store_shifted : store :=
  Eval vm_compute in
    snd ((r <- play 100 d0 ;; Schedule.new [r] [kw_shift 5]) []).

(** The empty schedule, [Schedule()]. *)
Definition empty_schedule : pyobj := ScheduleObj None 0 [] [].

(** The state in which the body of [with build(): ...] starts. *)
Definition state_built : builder.state :=
  Eval vm_compute in snd (builder.build_enter None (None, [])).

(* ================================================================== *)
(** ** The insertion time of left alignment, in the spec's words *)

(** The latest stop of [acc] on channel [c], and the earliest start of
    [f] on it (0 stands in where the channel does not occur; the
    definition below asks only for shared channels). *)
Definition stop_on (acc : TimeslotCollection.t) (c : Channel) : Z :=
  match TimeslotCollection.ch_stop_time acc [c] with
  | Ok z => z
  | Raise _ => 0
  end.

Definition start_on (f : TimeslotCollection.t) (c : Channel) : Z :=
  match TimeslotCollection.ch_start_time f [c] with
  | Ok z => z
  | Raise _ => 0
  end.

(** "max over channels c shared between accumulator and f of
    (accumulator.channel_stop(c) - f.channel_start(c)), or 0 if no
    shared channels". *)
Definition spec_insert_time (acc f : TimeslotCollection.t) : Z :=
  match ops.common_channels (TimeslotCollection.channels acc)
                            (TimeslotCollection.channels f) with
  | [] => 0
  | c :: cs =>
      fold_right (fun c' m => Z.max (stop_on acc c' - start_on f c') m)
                 (stop_on acc c - start_on f c) cs
  end.

(* ================================================================== *)
(** ** [schedule.py]: [Schedule.flatten] and the operators of the class *)

(** [yield from child.flatten(..)] for each child in turn: what the
    children yield, one after the other.  [None] stands for a
    recursion that ran out of depth. *)
Fixpoint yield_from_each (f : ref -> option (result (list (Z * ref))))
    (children : list ref) : option (result (list (Z * ref))) :=
  match children with
  | [] => Some (Ok [])
  | child :: rest =>
      match f child with
      | None => None
      | Some (Raise e) => Some (Raise e)
      | Some (Ok l) =>
          match yield_from_each f rest with
          | None => None
          | Some (Raise e) => Some (Raise e)
          | Some (Ok l') => Some (Ok (l ++ l'))
          end
      end
  end.

(** [flatten(self, time=0)], consumed to its end: the pairs
    [(time, leaf)] in the order they are yielded.  A composite yields
    from each child with [time + self._shift]; [fuel] bounds the depth
    of the recursion.

    Modelled from the spec: the leaf class is missing; a leaf yields
    itself at the time it is given. *)
Fixpoint Schedule_flatten (fuel : nat) (s : store) (self : ref) (time : Z)
  : option (result (list (Z * ref))) :=
  match fuel with
  | O => None
  | S fuel' =>
      match nth_error s self with
      | None => Some (Raise ReferenceError)
      | Some (InstructionObj _ _ _ _) => Some (Ok [(time, self)])
      | Some (ScheduleObj _ shift _ children) =>
          yield_from_each
            (fun child => Schedule_flatten fuel' s child (time + shift))
            children
      end
  end.

(** [__add__], [__or__], [__lshift__], [__rshift__]. *)
Definition Schedule_add (self schedule : ref) : M store ref :=
  Schedule_append self schedule [].

Definition Schedule_or (self schedule : ref) : M store ref :=
  Schedule_union self [schedule].

Definition Schedule_lshift (self : ref) (time : Z) : M store ref :=
  Schedule_shift self time.

Definition Schedule_rshift (self : ref) (time : Z) : M store ref :=
  Schedule_shift self (- time).

(** *** Predicates on schedule trees *)

(** A composite refers only to objects created before it, and its
    occupancy is that of its children moved by its shift, in order. *)
Definition node_wf (s : store) (r : ref) (o : pyobj) : Prop :=
  match o with
  | InstructionObj _ _ _ _ => True
  | ScheduleObj _ shift ts children =>
      Forall (fun c => (c < r)%nat) children
      /\ ts = List.concat
                (map (fun c => TimeslotCollection.shift (slots_of s c) shift)
                     children)
  end.

Definition tree_wf (s : store) : Prop :=
  forall r o, nth_error s r = Some o -> node_wf s r o.

Definition is_leaf (s : store) (r : ref) : Prop :=
  exists n c d ts, nth_error s r = Some (InstructionObj n c d ts).

(** The occupancy of a list of placed leaves: each leaf's timeslots
    moved by the time the leaf is placed at. *)
Definition placed_slots (s : store) (placed : list (Z * ref)) : list Timeslot :=
  List.concat
    (map (fun p => TimeslotCollection.shift (slots_of s (snd p)) (fst p)) placed).

(** Moving a placed leaf by [dt]. *)
Definition later (dt : Z) (p : Z * ref) : Z * ref := (fst p + dt, snd p).

Definition map_yielded (f : Z * ref -> Z * ref)
    (out : option (result (list (Z * ref)))) : option (result (list (Z * ref))) :=
  match out with
  | None => None
  | Some (Raise e) => Some (Raise e)
  | Some (Ok l) => Some (Ok (map f l))
  end.

(** A schedule of a 10-unit leaf on [d0], wrapped with shift 3 and
    wrapped again, with a 20-unit leaf on [d1], with shift 4
    (references 0 to 3). *)
Definition store_nested : store :=
  Eval vm_compute in
    snd ((a <- play 10 d0 ;;
          b <- play 20 d1 ;;
          inner <- Schedule.new [a] [kw_shift 3] ;;
          Schedule.new [inner; b] [kw_shift 4]) []).

(* ================================================================== *)
(** ** [builder.py]: the lazily built circuit, and qubits as channels *)

(** Methods of [_PulseBuilder], on the one builder object of the state.

    Modelled from the spec: class [QuantumCircuit] is missing; a
    circuit is the list of the gates called on it, a new circuit is
    empty, and [extend] adds the gates of another circuit at its end. *)
Module _PulseBuilder.

Definition set_lazy_circuit (c : option (list string)) : M builder.state unit :=
  self <- builder._active_builder ;;
  builder.set_builder
    (builder.mkBuilder (builder._backend self) (builder._block self) c
                       (builder._schedule self)).

(** The property [num_qubits], behind [_requires_backend]. *)
Definition num_qubits : M builder.state Z :=
  self <- builder._active_builder ;;
  match builder._backend self with
  | None => raise BackendNotSet
  | Some backend => ret (builder.n_qubits backend)
  end.

(** [new_circuit(self)]: [QuantumCircuit(self.num_qubits)]. *)
Definition new_circuit : M builder.state (list string) :=
  num_qubits ;;; ret [].

(** [self._lazy_circuit.extend(circ)]; [None] has no [extend]. *)
Definition lazy_circuit_extend (circ : list string) : M builder.state unit :=
  self <- builder._active_builder ;;
  match builder._lazy_circuit self with
  | Some pending => set_lazy_circuit (Some (pending ++ circ))
  | None => raise (AttributeError "extend")
  end.

(** [call_circuit(self, circ, lazy=True)], behind [_requires_backend]. *)
Definition call_circuit (circ : list string) (lazy : bool) : M builder.state unit :=
  self <- builder._active_builder ;;
  match builder._backend self with
  | None => raise BackendNotSet
  | Some _ =>
      match builder._lazy_circuit self with
      | None => c <- new_circuit ;; set_lazy_circuit (Some c)
      | Some _ => ret tt
      end ;;;
      if lazy then lazy_circuit_extend circ
      else
        builder._compile_lazy_circuit ;;;
        lazy_circuit_extend circ ;;;
        builder._compile_lazy_circuit
  end.

(** [append_block(self, block)], behind [_compile_lazy_circuit_before]. *)
Definition append_block (block : ref) : M builder.state unit :=
  builder._compile_lazy_circuit ;;;
  builder.block_append block.

(** [call_schedule(self, schedule)]. *)
Definition call_schedule (schedule : ref) : M builder.state unit :=
  append_block schedule.

(** [set_active_block(self, block)], behind
    [_compile_lazy_circuit_before]; its [assert] holds for a reference
    to a schedule. *)
Definition set_active_block (block : ref) : M builder.state unit :=
  builder._compile_lazy_circuit ;;;
  self <- builder._active_builder ;;
  builder.set_builder
    (builder.mkBuilder (builder._backend self) block
                       (builder._lazy_circuit self) (builder._schedule self)).

End _PulseBuilder.

(** The functions of the module. *)

(** [call_circuit(circ)]. *)
Definition builder_call_circuit (circ : list string) : M builder.state unit :=
  builder._active_builder ;;;
  _PulseBuilder.call_circuit circ true.

(** [active_backend()]. *)
Definition builder_active_backend : M builder.state builder.Backend :=
  self <- builder._active_builder ;;
  match builder._backend self with
  | None => raise BackendNotSet
  | Some backend => ret backend
  end.

(** A set of channels: a list in which no channel occurs twice. *)
Definition set_add (c : Channel) (chans : list Channel) : list Channel :=
  if mem_channel c chans then chans else chans ++ [c].

Definition set_of (l : list Channel) : list Channel :=
  fold_left (fun chans c => set_add c chans) l [].

(** [qubit_channels(qubit)]:
    [set(active_backend().configuration().get_qubit_channels(qubit))].
    The configuration of a backend is an external collaborator; what
    it answers is the parameter [get_qubit_channels]. *)
Definition builder_qubit_channels
    (get_qubit_channels : builder.Backend -> Z -> result (list Channel))
    (qubit : Z) : M builder.state (list Channel) :=
  backend <- builder_active_backend ;;
  chans <- lift_result (get_qubit_channels backend qubit) ;;
  ret (set_of chans).

(** An argument of [_qubits_to_channels]: an [int], a [Channel], or
    anything else, of which only its text matters. *)
Inductive channel_or_qubit : Type :=
| a_qubit (q : Z)
| a_channel (c : Channel)
| another (shown : string).

Definition double_quote : string :=
  String (Ascii.ascii_of_nat 34) EmptyString.

(** The loop of [_qubits_to_channels]: for an [int],
    [chans.union(qubit_channels(..))] builds a new set and the loop
    drops it; for a channel, [chans.add(..)]; anything else raises. *)
Fixpoint qubits_to_channels_loop
    (get_qubit_channels : builder.Backend -> Z -> result (list Channel))
    (args : list channel_or_qubit) (chans : list Channel)
  : M builder.state (list Channel) :=
  match args with
  | [] => ret chans
  | a_qubit q :: rest =>
      builder_qubit_channels get_qubit_channels q ;;;
      qubits_to_channels_loop get_qubit_channels rest chans
  | a_channel c :: rest =>
      qubits_to_channels_loop get_qubit_channels rest (set_add c chans)
  | another shown :: _ =>
      raise (PulseError
               (String.append shown
                  (String.append " is not a "
                     (String.append double_quote
                        (String.append "Channel"
                           (String.append double_quote
                              " or qubit (integer)."))))))
  end.

(** [_qubits_to_channels(..channels_or_qubits)]. *)
Definition _qubits_to_channels
    (get_qubit_channels : builder.Backend -> Z -> result (list Channel))
    (args : list channel_or_qubit) : M builder.state (list Channel) :=
  qubits_to_channels_loop get_qubit_channels args [].

(** The state of a builder with a backend, an active block and a
    pending circuit. *)
Definition with_backend (backend : builder.Backend) (block : ref)
    (pending : option (list string)) (schedule : ref) (h : store)
  : builder.state :=
  (Some (builder.mkBuilder (Some backend) block pending schedule), h).

(** The gates that wait in a lazy circuit. *)
Definition pending_gates (pending : option (list string)) : list string :=
  match pending with
  | Some gates => gates
  | None => []
  end.

(** A backend of two qubits whose compiler refuses every circuit. *)
Definition failing_backend : builder.Backend :=
  builder.mkBackend 2 (fun _ => raise BackendNotSet).

(* ================================================================== *)
(** ** Text of numbers, and [str.format] *)

(** ['%d' % n] for an [int]. *)
Definition show_Z (z : Z) : string :=
  DecimalString.NilZero.string_of_int (Z.to_int z).

Definition show_nat (n : nat) : string :=
  DecimalString.NilZero.string_of_uint (Nat.to_uint n).

(** Exceptions beyond those of the schedule tree. *)
Inductive pyexn : Type :=
| Builtin (e : exn)
| QiskitError (message : string)
| ValueError (message : string)
| KeyError (key : string).

Inductive outcome (A : Type) : Type :=
| Returns (a : A)
| Raises (e : pyexn).

Arguments Returns {A} a.
Arguments Raises {A} e.

Module str.

(** How the fields met so far were numbered: not yet, automatically
    ([{}], with the next index), or by hand ([{0}]). *)
Inductive numbering : Type :=
| unnumbered
| automatic (next : nat)
| manual.

(** Where the scan of the template stands: in plain text, after an
    opening brace, inside a field (with its name so far), or after a
    closing brace in plain text. *)
Inductive scan : Type :=
| in_text
| after_open
| in_field (name : string)
| after_close.

Definition is_digit (c : Ascii.ascii) : bool :=
  let n := Ascii.nat_of_ascii c in (48 <=? n)%nat && (n <=? 57)%nat.

Definition is_name_char (c : Ascii.ascii) : bool :=
  let n := Ascii.nat_of_ascii c in
  is_digit c || ((65 <=? n)%nat && (n <=? 90)%nat)
  || ((97 <=? n)%nat && (n <=? 122)%nat) || (n =? 95)%nat.

Fixpoint all_chars (p : Ascii.ascii -> bool) (s : string) : bool :=
  match s with
  | EmptyString => true
  | String c s' => p c && all_chars p s'
  end.

Fixpoint index_of_digits (s : string) (acc : nat) : nat :=
  match s with
  | EmptyString => acc
  | String c s' =>
      index_of_digits s' (10 * acc + (Ascii.nat_of_ascii c - 48))%nat
  end.

Fixpoint lookup_keyword (name : string) (kwargs : list (string * string))
  : option string :=
  match kwargs with
  | [] => None
  | (k, v) :: rest => if String.eqb k name then Some v else lookup_keyword name rest
  end.

(** The value of one replacement field, and the numbering after it.
    [None]: a field outside what is modelled here (attribute access,
    indexing, conversion or format specification). *)
Definition field_value (name : string) (mode : numbering)
    (args : list string) (kwargs : list (string * string))
  : option (outcome (string * numbering)) :=
  match name with
  | EmptyString =>
      match mode with
      | manual =>
          Some (Raises (ValueError
            "cannot switch from manual field specification to automatic field numbering"))
      | unnumbered | automatic _ =>
          let i := match mode with automatic n => n | _ => 0%nat end in
          match nth_error args i with
          | Some v => Some (Returns (v, automatic (S i)))
          | None => Some (Raises (Builtin IndexError))
          end
      end
  | String c _ =>
      if all_chars is_digit name then
        match mode with
        | automatic _ =>
            Some (Raises (ValueError
              "cannot switch from automatic field numbering to manual field specification"))
        | unnumbered | manual =>
            match nth_error args (index_of_digits name 0) with
            | Some v => Some (Returns (v, manual))
            | None => Some (Raises (Builtin IndexError))
            end
        end
      else if negb (is_digit c) && all_chars is_name_char name then
        match lookup_keyword name kwargs with
        | Some v => Some (Returns (v, mode))
        | None => Some (Raises (KeyError name))
        end
      else None
  end.

Definition emit (c : Ascii.ascii) (out : option (outcome string))
  : option (outcome string) :=
  match out with
  | Some (Returns s) => Some (Returns (String c s))
  | other => other
  end.

Definition emit_string (v : string) (out : option (outcome string))
  : option (outcome string) :=
  match out with
  | Some (Returns s) => Some (Returns (String.append v s))
  | other => other
  end.

Definition open_brace : Ascii.ascii := Ascii.ascii_of_nat 123.
Definition close_brace : Ascii.ascii := Ascii.ascii_of_nat 125.

(** [template.format(..args, ..kwargs)], read from left to right;
    the arguments are given by their text. *)
Fixpoint format_from (template : string) (at_ : scan) (mode : numbering)
    (args : list string) (kwargs : list (string * string))
  : option (outcome string) :=
  match template with
  | EmptyString =>
      match at_ with
      | in_text => Some (Returns EmptyString)
      | after_open => Some (Raises (ValueError "Single '{' encountered in format string"))
      | in_field _ => Some (Raises (ValueError "expected '}' before end of string"))
      | after_close => Some (Raises (ValueError "Single '}' encountered in format string"))
      end
  | String c rest =>
      match at_ with
      | in_text =>
          if Ascii.eqb c open_brace then format_from rest after_open mode args kwargs
          else if Ascii.eqb c close_brace then format_from rest after_close mode args kwargs
          else emit c (format_from rest in_text mode args kwargs)
      | after_close =>
          if Ascii.eqb c close_brace
          then emit c (format_from rest in_text mode args kwargs)
          else Some (Raises (ValueError "Single '}' encountered in format string"))
      | after_open =>
          if Ascii.eqb c open_brace
          then emit c (format_from rest in_text mode args kwargs)
          else if Ascii.eqb c close_brace then
            match field_value EmptyString mode args kwargs with
            | Some (Returns (v, mode')) =>
                emit_string v (format_from rest in_text mode' args kwargs)
            | Some (Raises e) => Some (Raises e)
            | None => None
            end
          else format_from rest (in_field (String c EmptyString)) mode args kwargs
      | in_field name =>
          if Ascii.eqb c close_brace then
            match field_value name mode args kwargs with
            | Some (Returns (v, mode')) =>
                emit_string v (format_from rest in_text mode' args kwargs)
            | Some (Raises e) => Some (Raises e)
            | None => None
            end
          else if Ascii.eqb c open_brace then None
          else format_from rest
                 (in_field (String.append name (String c EmptyString)))
                 mode args kwargs
      end
  end.

Definition format (template : string) (args : list string)
    (kwargs : list (string * string)) : option (outcome string) :=
  format_from template in_text unnumbered args kwargs.

End str.

(* ================================================================== *)
(** ** [commands/pulse_command.py] *)

Module pulse_command.

(** What may be passed as a duration: an [int] (a [bool] is the [int]
    it equals), a [float], [None], a [str]. *)
Inductive pyval : Type :=
| PyInt (z : Z)
| PyFloat (f : float)
| PyNone
| PyStr (s : string).

(** A command: its class, [_duration], [_name]. *)
Record PulseCommand : Type := mkCommand {
  class_name : string;
  _duration : Z;
  _name : string
}.

(** ['p%d' % PulseCommand.pulseIndex]. *)
Definition default_name (pulseIndex : nat) : string :=
  String.append "p" (show_nat pulseIndex).

(** [if name:], for a name that is [None] or a [str]. *)
Definition truthy (name : option string) : bool :=
  match name with
  | Some (String _ _) => true
  | _ => false
  end.

(** [PulseCommand.__init__(self, duration=None, name=None)], as the
    subclass [cls] runs it; the state is the class attribute
    [pulseIndex]. *)
Definition init (cls : string) (duration : pyval) (name : option string)
  : M nat PulseCommand :=
  match duration with
  | PyInt d =>
      match name with
      | Some (String c rest) => ret (mkCommand cls d (String c rest))
      | _ =>
          fun pulseIndex =>
            (Ok (mkCommand cls d (default_name pulseIndex)), S pulseIndex)
      end
  | _ => raise (PulseError "Pulse duration should be integer.")
  end.

(** [__eq__]. *)
Definition eqb (a b : PulseCommand) : bool :=
  String.eqb (class_name a) (class_name b)
  && Z.eqb (_duration a) (_duration b)
  && String.eqb (_name a) (_name b).

(** [__repr__]: ['%s(name=%s, duration=%d)']. *)
Definition repr (c : PulseCommand) : string :=
  String.append (class_name c)
    (String.append "(name="
       (String.append (_name c)
          (String.append ", duration="
             (String.append (show_Z (_duration c)) ")")))).

(** A request to create a command, and creating it. *)
Definition request : Type := (string * pyval * option string)%type.

Definition create (r : request) : M nat PulseCommand :=
  init (fst (fst r)) (snd (fst r)) (snd r).

Definition requested_name (r : request) : option string := snd r.

(** The names given to the commands whose request had no name. *)
Definition generated_names (reqs : list request) (cmds : list PulseCommand)
  : list string :=
  map (fun p => _name (snd p))
      (filter (fun p => negb (truthy (requested_name (fst p))))
              (combine reqs cmds)).


Definition unnamed (r : request) : bool := negb (truthy (requested_name r)).

Definition int_duration (r : request) : bool :=
  match snd (fst r) with
  | PyInt _ => true
  | _ => false
  end.

End pulse_command.

(* ================================================================== *)
(** ** Dictionaries, in the order of insertion *)

Fixpoint dict_get {K V} (eqb : K -> K -> bool) (k : K) (d : list (K * V))
  : option V :=
  match d with
  | [] => None
  | (k', v) :: rest => if eqb k' k then Some v else dict_get eqb k rest
  end.

Definition dict_has {K V} (eqb : K -> K -> bool) (k : K) (d : list (K * V))
  : bool :=
  match dict_get eqb k d with
  | Some _ => true
  | None => false
  end.

(** [d[k] = v]: a key that is there keeps its place. *)
Fixpoint dict_set {K V} (eqb : K -> K -> bool) (k : K) (v : V)
    (d : list (K * V)) : list (K * V) :=
  match d with
  | [] => [(k, v)]
  | (k', v') :: rest =>
      if eqb k' k then (k', v) :: rest else (k', v') :: dict_set eqb k v rest
  end.

(** [d.pop(k)], for a key that is there. *)
Fixpoint dict_remove {K V} (eqb : K -> K -> bool) (k : K) (d : list (K * V))
  : list (K * V) :=
  match d with
  | [] => []
  | (k', v') :: rest =>
      if eqb k' k then rest else (k', v') :: dict_remove eqb k rest
  end.

Definition dict_keys {K V} (d : list (K * V)) : list K := map fst d.

(* ================================================================== *)
(** ** [cmd_def.py] *)

Module cmd_def.

(** What may be passed as qubits: an [int], [None], a [float], a
    [str], a tuple or list.  (A [bool] is left out.) *)
#[warnings="-register-all"]
Inductive pyarg : Type :=
| AInt (z : Z)
| ANone
| AFloat (f : float)
| AStr (s : string)
| ASeq (items : list pyarg).

(** [tuple(x)], with the [TypeError] of what cannot be iterated. *)
Definition tuple_of (x : pyarg) : option (list pyarg) :=
  match x with
  | ASeq items => Some items
  | AStr s => Some (map (fun c => AStr (String c EmptyString)) (list_ascii_of_string s))
  | AInt _ | ANone | AFloat _ => None
  end.

Fixpoint ints_of (items : list pyarg) : option (list Z) :=
  match items with
  | [] => Some []
  | AInt z :: rest =>
      match ints_of rest with
      | Some zs => Some (z :: zs)
      | None => None
      end
  | _ :: _ => None
  end.

(** [_to_qubit_tuple(qubit_tuple)]. *)
Definition _to_qubit_tuple (qubit_tuple : pyarg) : outcome (list Z) :=
  let qubit_tuple :=
    match tuple_of qubit_tuple with
    | Some items => items
    | None => [qubit_tuple]
    end in
  match ints_of qubit_tuple with
  | Some qubits => Returns qubits
  | None => Raises (QiskitError "All qubits must be integers.")
  end.

Definition qubits_eqb (a b : list Z) : bool :=
  if list_eq_dec Z.eq_dec a b then true else false.

(** [str(qubits)] for a tuple of integers. *)
Fixpoint show_items (qubits : list Z) : string :=
  match qubits with
  | [] => ""
  | [q] => show_Z q
  | q :: rest => String.append (show_Z q) (String.append ", " (show_items rest))
  end.

Definition show_tuple (qubits : list Z) : string :=
  match qubits with
  | [q] => String.append "(" (String.append (show_Z q) ",)")
  | _ => String.append "(" (String.append (show_items qubits) ")")
  end.

Definition as_tuple (qubits : list Z) : pyarg := ASeq (map AInt qubits).

Section CmdDef.

(** Class [ParameterizedSchedule] is missing.  Its objects, what its
    constructor gives for a schedule and a name, and what
    [bind_parameters] gives, are parameters. *)
Variable PS : Type.
Variable Params : Type.
Variable Bound : Type.
Variable PS_init : ref -> option string -> outcome PS.
Variable bind_parameters : PS -> Params -> outcome Bound.

(** What [add] may be given: an object of the store, or a
    [ParameterizedSchedule]. *)
Inductive schedule_arg : Type :=
| from_store (r : ref)
| parameterized (p : PS).

(** What the dictionary holds: a [ParameterizedSchedule], or an
    object of the store that is not a [Schedule]. *)
Inductive stored : Type :=
| a_parameterized (p : PS)
| a_plain (r : ref).

(** What [get] and [pop] return: what [bind_parameters] returned, the
    generator [schedule.flatten()] of a plain object, or the plain
    object itself. *)
Inductive got : Type :=
| bound (b : Bound)
| flatten_of (r : ref)
| plain (r : ref).

(** [self._cmd_dict]: command name, then qubits. *)
Definition cmd_dict : Type := list (string * list (list Z * stored)).

(** [self._cmd_dict[cmd_name][qubits]], where both keys are there. *)
Definition lookup (cmd_name : string) (qubits : list Z) (d : cmd_dict)
  : option stored :=
  match dict_get String.eqb cmd_name d with
  | Some inner => dict_get qubits_eqb qubits inner
  | None => None
  end.

(** [has(self, cmd_name, qubits)]. *)
Definition has (cmd_name : string) (qubits : pyarg) (d : cmd_dict)
  : outcome bool :=
  match _to_qubit_tuple qubits with
  | Raises e => Raises e
  | Returns qubits =>
      match dict_get String.eqb cmd_name d with
      | Some inner => Returns (dict_has qubits_eqb qubits inner)
      | None => Returns false
      end
  end.

(** [self._cmd_dict.setdefault(cmd_name, {})]: the inner dictionary,
    and the dictionary after it. *)
Definition setdefault (cmd_name : string) (d : cmd_dict)
  : list (list Z * stored) * cmd_dict :=
  match dict_get String.eqb cmd_name d with
  | Some inner => (inner, d)
  | None => ([], d ++ [(cmd_name, [])])
  end.

(** [ParameterizedSchedule(schedule, name=schedule.name)] if
    [schedule] is a [Schedule], else [schedule] as it is. *)
Definition wrap (s : store) (schedule : schedule_arg) : outcome stored :=
  match schedule with
  | parameterized p => Returns (a_parameterized p)
  | from_store r =>
      match nth_error s r with
      | None => Raises (Builtin ReferenceError)
      | Some (InstructionObj _ _ _ _) => Returns (a_plain r)
      | Some (ScheduleObj name _ _ _) =>
          match PS_init r name with
          | Returns p => Returns (a_parameterized p)
          | Raises e => Raises e
          end
      end
  end.

(** [add(self, cmd_name, qubits, schedule)]: what it returns or
    raises, and the dictionary after it. *)
Definition add (s : store) (cmd_name : string) (qubits : pyarg)
    (schedule : schedule_arg) (d : cmd_dict) : outcome unit * cmd_dict :=
  match _to_qubit_tuple qubits with
  | Raises e => (Raises e, d)
  | Returns qubits =>
      let (inner, d) := setdefault cmd_name d in
      match wrap s schedule with
      | Raises e => (Raises e, d)
      | Returns v =>
          (Returns tt,
           dict_set String.eqb cmd_name (dict_set qubits_eqb qubits v inner) d)
      end
  end.

(** The message of [get] and [pop] for a command that is not there. *)
Definition not_present : string :=
  "Command {0} for qubits {1} is not presentin CmdDef".

Definition raise_formatted {A} (message : option (outcome string))
  : option (outcome A) :=
  match message with
  | Some (Returns text) => Some (Raises (Builtin (PulseError text)))
  | Some (Raises e) => Some (Raises e)
  | None => None
  end.

(** [schedule.bind_parameters(..params)] of a
    [ParameterizedSchedule], else [other]. *)
Definition bind_or (v : stored) (params : Params) (other : ref -> got)
  : outcome got :=
  match v with
  | a_parameterized p =>
      match bind_parameters p params with
      | Returns b => Returns (bound b)
      | Raises e => Raises e
      end
  | a_plain r => Returns (other r)
  end.

(** [get(self, cmd_name, qubits, ..params)]. *)
Definition get (cmd_name : string) (qubits : pyarg) (params : Params)
    (d : cmd_dict) : option (outcome got) :=
  match _to_qubit_tuple qubits with
  | Raises e => Some (Raises e)
  | Returns qubits =>
      match has cmd_name (as_tuple qubits) d with
      | Raises e => Some (Raises e)
      | Returns true =>
          match lookup cmd_name qubits d with
          | Some schedule => Some (bind_or schedule params flatten_of)
          | None => Some (Raises (KeyError cmd_name))
          end
      | Returns false =>
          raise_formatted
            (str.format not_present [cmd_name; show_tuple qubits] [])
      end
  end.

(** [pop(self, cmd_name, qubits, ..params)]: what it returns or
    raises, and the dictionary after it.  Its message is formatted
    with the keywords [name] and [qubits]. *)
Definition pop (cmd_name : string) (qubits : pyarg) (params : Params)
    (d : cmd_dict) : option (outcome got) * cmd_dict :=
  match _to_qubit_tuple qubits with
  | Raises e => (Some (Raises e), d)
  | Returns qubits =>
      match has cmd_name (as_tuple qubits) d with
      | Raises e => (Some (Raises e), d)
      | Returns true =>
          match dict_get String.eqb cmd_name d with
          | Some inner =>
              match dict_get qubits_eqb qubits inner with
              | Some schedule =>
                  (Some (bind_or schedule params plain),
                   dict_set String.eqb cmd_name
                     (dict_remove qubits_eqb qubits inner) d)
              | None => (Some (Raises (KeyError (show_tuple qubits))), d)
              end
          | None => (Some (Raises (KeyError cmd_name)), d)
          end
      | Returns false =>
          (raise_formatted
             (str.format not_present []
                [("name", cmd_name); ("qubits", show_tuple qubits)]), d)
      end
  end.

(** [cmds(self)]. *)
Definition cmds (d : cmd_dict) : list string := dict_keys d.

(** [cmd_qubits(self, cmd_name)]: [list(self._cmd_dict.keys())]. *)
Definition cmd_qubits (cmd_name : string) (d : cmd_dict) : outcome (list string) :=
  match dict_get String.eqb cmd_name d with
  | Some _ => Returns (dict_keys d)
  | None =>
      Raises (Builtin (PulseError
        (String.append "Command "
           (String.append cmd_name " does not exist in CmdDef."))))
  end.

(** [CmdDef.__init__(self, schedules)]: the entries of [schedules],
    each with key [(cmd_name, ..qubits)], added in turn to an empty
    dictionary. *)
Fixpoint add_all (s : store)
    (schedules : list ((string * list pyarg) * schedule_arg)) (d : cmd_dict)
  : outcome unit * cmd_dict :=
  match schedules with
  | [] => (Returns tt, d)
  | ((cmd_name, qubits), schedule) :: rest =>
      match add s cmd_name (ASeq qubits) schedule d with
      | (Returns _, d') => add_all s rest d'
      | (Raises e, d') => (Raises e, d')
      end
  end.

Definition init (s : store)
    (schedules : list ((string * list pyarg) * schedule_arg))
  : outcome unit * cmd_dict :=
  add_all s schedules [].

(** No name twice, and for each name no qubits twice: a dictionary of
    dictionaries. *)
Definition dict_wf (d : cmd_dict) : Prop :=
  NoDup (dict_keys d)
  /\ Forall (fun entry => NoDup (dict_keys (snd entry))) d.

End CmdDef.

Arguments from_store {PS} r.
Arguments a_plain {PS} r.
Arguments flatten_of {Bound} r.
Arguments plain {Bound} r.

End cmd_def.

(** A dictionary with the command [x] on qubit 0, and a
    [bind_parameters] that returns the schedule, here a name, for
    every parameter. *)
Definition x_on_qubit_0 : cmd_def.cmd_dict string :=
  [("x", [([0], cmd_def.a_parameterized "x0")])].

Definition bind_nothing (p : string) (params : unit) : outcome string :=
  Returns p.

(* ================================================================== *)
(** * Proofs *)

Unset Implicit Arguments.

(** ** Channels *)

Lemma Channel_eqb_eq a b : Channel_eqb a b = true <-> a = b.
Proof.
  destruct a as [ka ia], b as [kb ib]; unfold Channel_eqb; simpl.
  rewrite andb_true_iff, String.eqb_eq, Z.eqb_eq.
  split; [intros [-> ->]; reflexivity | intros H; inversion H; auto].
Qed.

Lemma Channel_eqb_refl a : Channel_eqb a a = true.
Proof. apply Channel_eqb_eq; reflexivity. Qed.

Lemma mem_channel_In c l : mem_channel c l = true <-> In c l.
Proof.
  unfold mem_channel. rewrite existsb_exists. split.
  - intros [c' [Hin Heq]]. apply Channel_eqb_eq in Heq. now subst.
  - intros Hin. exists c. split; [assumption | apply Channel_eqb_refl].
Qed.

(** ** Running a computation step by step *)

Lemma bind_Ok {S A B} (c : M S A) (k : A -> M S B) s a s' :
  c s = (Ok a, s') -> bind c k s = k a s'.
Proof. intros E. unfold bind. now rewrite E. Qed.

Lemma bind_Raise {S A B} (c : M S A) (k : A -> M S B) s e s' :
  c s = (Raise e, s') -> bind c k s = (Raise e, s').
Proof. intros E. unfold bind. now rewrite E. Qed.

Lemma load_Some s r o : nth_error s r = Some o -> load r s = (Ok o, s).
Proof. intros E. unfold load. now rewrite E. Qed.

Lemma load_None s r : nth_error s r = None -> load r s = (Raise ReferenceError, s).
Proof. intros E. unfold load. now rewrite E. Qed.

Lemma nth_error_alloc (s : store) (o : pyobj) :
  nth_error (s ++ [o]) (List.length s) = Some o.
Proof.
  rewrite nth_error_app2 by lia. now rewrite Nat.sub_diag.
Qed.

(** ** Frame rules: the store only grows *)

Lemma only_allocates_ret {A} (a : A) : only_allocates (ret a).
Proof. intros s. exists []. simpl. now rewrite app_nil_r. Qed.

Lemma only_allocates_raise {A} (e : exn) : only_allocates (@raise store A e).
Proof. intros s. exists []. simpl. now rewrite app_nil_r. Qed.

Lemma only_allocates_lift_result {A} (r : result A) :
  only_allocates (@lift_result store A r).
Proof. intros s. exists []. simpl. now rewrite app_nil_r. Qed.

Lemma only_allocates_load r : only_allocates (load r).
Proof.
  intros s. exists []. unfold load.
  destruct (nth_error s r); simpl; now rewrite app_nil_r.
Qed.

Lemma only_allocates_alloc o : only_allocates (alloc o).
Proof. intros s. exists [o]. reflexivity. Qed.

Lemma only_allocates_bind {A B} (c : M store A) (k : A -> M store B) :
  only_allocates c -> (forall a, only_allocates (k a)) ->
  only_allocates (bind c k).
Proof.
  intros Hc Hk s. unfold bind. destruct (Hc s) as [cr1 E1].
  destruct (c s) as [[a|e] s1]; simpl in E1; subst s1.
  - destruct (Hk a (s ++ cr1)) as [cr2 E2].
    exists (cr1 ++ cr2). rewrite E2. now rewrite app_assoc.
  - exists cr1. reflexivity.
Qed.

Lemma only_allocates_for_each {A B} (f : A -> M store B) (l : list A) :
  (forall a, only_allocates (f a)) -> only_allocates (for_each l f).
Proof.
  intros Hf. induction l as [|x l IH]; simpl.
  - apply only_allocates_ret.
  - apply only_allocates_bind; [apply Hf | intros y].
    apply only_allocates_bind; [apply IH | intros ys].
    apply only_allocates_ret.
Qed.

Lemma only_allocates_for_fold {A B} (f : B -> A -> M store B) (l : list A) :
  (forall b a, only_allocates (f b a)) ->
  forall acc, only_allocates (for_fold l f acc).
Proof.
  intros Hf. induction l as [|x l IH]; simpl; intros acc.
  - apply only_allocates_ret.
  - apply only_allocates_bind; [apply Hf | intros acc']. apply IH.
Qed.

Lemma only_allocates_unmodified {A} (c : M store A) s :
  only_allocates c -> unmodified s (snd (c s)).
Proof.
  intros Hc r o Hr. destruct (Hc s) as [cr ->].
  rewrite nth_error_app1; [assumption|].
  apply nth_error_Some. congruence.
Qed.

(** ** Frame rules: what is returned is new *)

Lemma allocates_result_raise e : allocates_result (raise e).
Proof. intros s r H. discriminate H. Qed.

Lemma allocates_result_alloc o : allocates_result (alloc o).
Proof.
  intros s r H. simpl in H. injection H as <-. split.
  - apply nth_error_None. lia.
  - exists o. apply nth_error_alloc.
Qed.

Lemma allocates_result_bind {A} (c : M store A) (k : A -> M store ref) :
  only_allocates c -> (forall a, allocates_result (k a)) ->
  allocates_result (bind c k).
Proof.
  intros Hc Hk s r. unfold bind. destruct (Hc s) as [cr1 E1].
  destruct (c s) as [[a|e] s1]; simpl in E1; subst s1.
  - intros H. destruct (Hk a _ r H) as [Hnone Hsome]. split; [|assumption].
    apply nth_error_None. apply nth_error_None in Hnone.
    rewrite length_app in Hnone. lia.
  - discriminate.
Qed.

Ltac frame :=
  repeat first
    [ apply only_allocates_ret
    | apply only_allocates_raise
    | apply only_allocates_lift_result
    | apply only_allocates_load
    | apply only_allocates_alloc
    | apply only_allocates_for_each; intros
    | apply only_allocates_for_fold; intros
    | apply only_allocates_bind; [|intros] ].

(** ** Rules for computations that only read *)

Lemma reads_ret {A} (a : A) : reads (ret a).
Proof. intros s. exists (Ok a). split; [reflexivity | discriminate]. Qed.

Lemma reads_raise {A} e : is_PulseError e = false -> reads (@raise store A e).
Proof.
  intros He s. exists (Raise e). split; [reflexivity|].
  intros e' [= <-]. exact He.
Qed.

Lemma reads_load r : reads (load r).
Proof.
  intros s. unfold load. destruct (nth_error s r) as [o|].
  - exists (Ok o). split; [reflexivity | discriminate].
  - exists (Raise ReferenceError). split; [reflexivity|].
    now intros e [= <-].
Qed.

Lemma reads_lift_result {A} (r : result A) :
  (forall e, r = Raise e -> is_PulseError e = false) ->
  reads (@lift_result store A r).
Proof. intros H s. exists r. split; [reflexivity | exact H]. Qed.

Lemma reads_bind {A B} (c : M store A) (k : A -> M store B) :
  reads c -> (forall a, reads (k a)) -> reads (bind c k).
Proof.
  intros Hc Hk s. unfold bind. destruct (Hc s) as [r [E He]]. rewrite E.
  destruct r as [a|e].
  - exact (Hk a s).
  - exists (Raise e). split; [reflexivity|]. intros e' [= <-]. now apply He.
Qed.

Lemma reads_for_each {A B} (f : A -> M store B) (l : list A) :
  (forall a, reads (f a)) -> reads (for_each l f).
Proof.
  intros Hf. induction l as [|x l IH]; simpl.
  - apply reads_ret.
  - apply reads_bind; [apply Hf | intros y].
    apply reads_bind; [apply IH | intros ys]. apply reads_ret.
Qed.

Lemma ch_start_time_no_PulseError ts chs e :
  TimeslotCollection.ch_start_time ts chs = Raise e -> is_PulseError e = false.
Proof.
  unfold TimeslotCollection.ch_start_time.
  destruct (TimeslotCollection.intervals_on ts chs); [|discriminate].
  now intros [= <-].
Qed.

Lemma ch_stop_time_no_PulseError ts chs e :
  TimeslotCollection.ch_stop_time ts chs = Raise e -> is_PulseError e = false.
Proof.
  unfold TimeslotCollection.ch_stop_time.
  destruct (TimeslotCollection.intervals_on ts chs); [|discriminate].
  now intros [= <-].
Qed.

Ltac reading :=
  repeat first
    [ apply reads_ret
    | apply reads_load
    | apply reads_lift_result;
      first [ apply ch_start_time_no_PulseError
            | apply ch_stop_time_no_PulseError ]
    | apply reads_for_each; intros
    | apply reads_bind; [|intros] ].

Lemma reads_name r : reads (Schedule.name r).
Proof. unfold Schedule.name. reading. Qed.

Lemma reads_timeslots r : reads (Schedule.timeslots r).
Proof. unfold Schedule.timeslots. reading. Qed.

Lemma reads_channels r : reads (Schedule.channels r).
Proof. unfold Schedule.channels, Schedule.timeslots. reading. Qed.

Lemma reads_stop_time r : reads (Schedule.stop_time r).
Proof. unfold Schedule.stop_time, Schedule.timeslots. reading. Qed.

Lemma reads_duration r : reads (Schedule.duration r).
Proof. unfold Schedule.duration, Schedule.timeslots. reading. Qed.

Lemma reads_ch_start_time r chs : reads (Schedule.ch_start_time r chs).
Proof. unfold Schedule.ch_start_time, Schedule.timeslots. reading. Qed.

Lemma reads_ch_stop_time r chs : reads (Schedule.ch_stop_time r chs).
Proof. unfold Schedule.ch_stop_time, Schedule.timeslots. reading. Qed.

Lemma reads_insert_time this other : reads (alignment.insert_time this other).
Proof.
  unfold alignment.insert_time.
  apply reads_bind; [apply reads_channels | intros tcs].
  apply reads_bind; [apply reads_channels | intros ocs].
  apply reads_bind.
  - apply reads_for_each. intros c. unfold alignment.ch_slack.
    apply reads_bind; [apply reads_stop_time | intros].
    apply reads_bind; [apply reads_ch_stop_time | intros].
    apply reads_bind; [apply reads_ch_start_time | intros]. apply reads_ret.
  - intros slacks. destruct slacks as [|x slacks]; [apply reads_ret|].
    destruct (nth_error _ _) as [c|].
    + apply reads_bind; [apply reads_ch_stop_time | intros].
      apply reads_bind; [apply reads_ch_start_time | intros]. apply reads_ret.
    + now apply reads_raise.
Qed.

(** After a read, a computation that fails quietly still does. *)
Lemma fails_quietly_after_read {A B} (c : M store A) (k : A -> M store B) s :
  reads c -> (forall a, fails_quietly (k a) s) -> fails_quietly (bind c k) s.
Proof.
  intros Hc Hk. destruct (Hc s) as [r [E He]]. unfold fails_quietly, bind.
  rewrite E. destruct r as [a|e].
  - exact (Hk a).
  - exists e. split; [reflexivity | now apply He].
Qed.

(** ** The keyword the constructor does not have *)

Lemma Schedule_new_shift_time schedules v kws s :
  Schedule.new schedules (kw_shift_time v :: kws) s
  = (Raise (TypeError "shift_time"), s).
Proof. reflexivity. Qed.

Lemma Schedule_new_fails_quietly schedules v kws s :
  fails_quietly (Schedule.new schedules (kw_shift_time v :: kws)) s.
Proof. exists (TypeError "shift_time"). split; reflexivity. Qed.

Lemma ops_shift_fails_quietly schedule time name s :
  fails_quietly (ops.shift schedule time name) s.
Proof.
  unfold ops.shift. apply fails_quietly_after_read.
  - destruct name; [apply reads_ret | apply reads_name].
  - intros n. apply Schedule_new_fails_quietly.
Qed.

Lemma ops_union_fails_quietly schedules shift_time name s :
  fails_quietly (ops.union schedules shift_time name) s.
Proof.
  unfold ops.union. apply fails_quietly_after_read.
  - destruct name; [apply reads_ret|].
    destruct schedules; [apply reads_ret | apply reads_name].
  - intros n. apply Schedule_new_fails_quietly.
Qed.

Lemma ops_insert_fails_quietly parent start_time child name s :
  fails_quietly (ops.insert parent start_time child name) s.
Proof.
  unfold ops.insert.
  destruct (ops_shift_fails_quietly child start_time None s) as [e [E He]].
  exists e. split; [|exact He]. now apply bind_Raise.
Qed.

Lemma ops_append_fails_quietly parent child name s :
  fails_quietly (ops.append parent child name) s.
Proof.
  unfold ops.append.
  apply fails_quietly_after_read; [apply reads_channels | intros pcs].
  apply fails_quietly_after_read; [apply reads_channels | intros ccs].
  apply fails_quietly_after_read; [apply reads_ch_stop_time | intros t].
  apply ops_insert_fails_quietly.
Qed.

Lemma Schedule_insert_fails_quietly self start_time schedule kws s :
  fails_quietly (Schedule_insert self start_time schedule kws) s.
Proof.
  unfold Schedule_insert. destruct kws as [|k kws]; simpl.
  - apply (ops_insert_fails_quietly self start_time schedule None s).
  - exists (TypeError (kwarg_name k)). split; reflexivity.
Qed.

Lemma Schedule_append_fails_quietly self schedule kws s :
  fails_quietly (Schedule_append self schedule kws) s.
Proof.
  unfold Schedule_append. destruct kws as [|k kws]; simpl.
  - apply (ops_append_fails_quietly self schedule None s).
  - exists (TypeError (kwarg_name k)). split; reflexivity.
Qed.

Lemma push_append_fails_quietly this other s :
  fails_quietly (alignment.push_append this other) s.
Proof.
  unfold alignment.push_append.
  apply fails_quietly_after_read; [apply reads_insert_time | intros t].
  apply Schedule_insert_fails_quietly.
Qed.

(** With a valid receiver, what is raised is the [TypeError]. *)
Lemma ops_shift_TypeError schedule time name s o :
  nth_error s schedule = Some o ->
  ops.shift schedule time name s = (Raise (TypeError "shift_time"), s).
Proof.
  intros E. unfold ops.shift, Schedule.name.
  destruct name; [reflexivity|].
  unfold bind at 1. unfold bind at 1. rewrite (load_Some _ _ _ E). reflexivity.
Qed.

(** ** The constructor only allocates *)

Lemma only_allocates_name r : only_allocates (Schedule.name r).
Proof. unfold Schedule.name. frame. Qed.

Lemma only_allocates_channels r : only_allocates (Schedule.channels r).
Proof. unfold Schedule.channels, Schedule.timeslots. frame. Qed.

Lemma only_allocates_ch_stop_time r chs :
  only_allocates (Schedule.ch_stop_time r chs).
Proof. unfold Schedule.ch_stop_time, Schedule.timeslots. frame. Qed.

Lemma only_allocates_init schedules shift name :
  only_allocates (Schedule.init schedules shift name).
Proof.
  unfold Schedule.init. apply only_allocates_bind.
  - apply only_allocates_for_each. intros r.
    unfold Schedule.child_timeslots. frame.
  - intros ts. destruct (TimeslotCollection.init _) as [t|e]; [frame|].
    destruct e; frame.
Qed.

Lemma allocates_result_init schedules shift name :
  allocates_result (Schedule.init schedules shift name).
Proof.
  unfold Schedule.init. apply allocates_result_bind.
  - apply only_allocates_for_each. intros r.
    unfold Schedule.child_timeslots. frame.
  - intros ts. destruct (TimeslotCollection.init _) as [t|e].
    + apply allocates_result_alloc.
    + destruct e; apply allocates_result_raise.
Qed.

Lemma only_allocates_new schedules kws :
  only_allocates (Schedule.new schedules kws).
Proof.
  unfold Schedule.new. destruct (Schedule.bind_keywords kws 0 None) as [[sh nm]|e].
  - apply only_allocates_init.
  - frame.
Qed.

Lemma allocates_result_new schedules kws :
  allocates_result (Schedule.new schedules kws).
Proof.
  unfold Schedule.new. destruct (Schedule.bind_keywords kws 0 None) as [[sh nm]|e].
  - apply allocates_result_init.
  - apply allocates_result_raise.
Qed.

(** An operator that only allocates, and returns what it allocated,
    leaves every object of the store as it was and returns a new one. *)
Lemma pure_operator (c : M store ref) s :
  only_allocates c -> allocates_result c ->
  unmodified s (snd (c s)) /\ returns_new s (c s).
Proof.
  intros H1 H2. split; [now apply only_allocates_unmodified | apply H2].
Qed.

(** ** Collisions in lists of timeslots *)

Lemma Timeslot_shift_0 t : Timeslot_shift 0 t = t.
Proof.
  destruct t as [[b e] c]. unfold Timeslot_shift, Interval_shift; simpl.
  now rewrite !Z.add_0_r.
Qed.

Lemma Timeslot_shift_add a b t :
  Timeslot_shift b (Timeslot_shift a t) = Timeslot_shift (a + b) t.
Proof.
  destruct t as [[x y] c]. unfold Timeslot_shift, Interval_shift; simpl.
  now rewrite <- !Z.add_assoc.
Qed.

Lemma shift_0 ts : TimeslotCollection.shift ts 0 = ts.
Proof.
  unfold TimeslotCollection.shift. induction ts as [|t ts IH]; simpl.
  - reflexivity.
  - now rewrite Timeslot_shift_0, IH.
Qed.

Lemma shift_shift ts a b :
  TimeslotCollection.shift (TimeslotCollection.shift ts a) b
  = TimeslotCollection.shift ts (a + b).
Proof.
  unfold TimeslotCollection.shift. rewrite map_map.
  apply map_ext. intros t. apply Timeslot_shift_add.
Qed.

Lemma collide_shift d x y :
  collide (Timeslot_shift d x) (Timeslot_shift d y) = collide x y.
Proof.
  unfold collide, has_overlap; simpl. f_equal. f_equal.
  - destruct (Z.ltb_spec (i_begin (ts_interval x) + d) (i_end (ts_interval y) + d)),
             (Z.ltb_spec (i_begin (ts_interval x)) (i_end (ts_interval y)));
      try reflexivity; lia.
  - destruct (Z.ltb_spec (i_begin (ts_interval y) + d) (i_end (ts_interval x) + d)),
             (Z.ltb_spec (i_begin (ts_interval y)) (i_end (ts_interval x)));
      try reflexivity; lia.
Qed.

Lemma no_collision_shift d x l :
  forallb (fun y => negb (collide (Timeslot_shift d x) y))
          (map (Timeslot_shift d) l)
  = forallb (fun y => negb (collide x y)) l.
Proof.
  induction l as [|y l IH]; simpl.
  - reflexivity.
  - now rewrite collide_shift, IH.
Qed.

Lemma collision_free_shift d l :
  collision_free (TimeslotCollection.shift l d) = collision_free l.
Proof.
  unfold TimeslotCollection.shift. induction l as [|x l IH]; simpl.
  - reflexivity.
  - now rewrite IH, no_collision_shift.
Qed.

Lemma collision_free_app a b :
  collision_free (a ++ b) = true <->
  collision_free a = true /\ collision_free b = true
  /\ forall x y, In x a -> In y b -> collide x y = false.
Proof.
  induction a as [|x a IH]; simpl.
  - split; [intros H; repeat split; auto; intros ? ? [] | tauto].
  - rewrite !andb_true_iff, forallb_app, andb_true_iff, IH, !forallb_forall.
    split.
    + intros [[Ha Hb] [Hca [Hcb Hx]]].
      split; [split; assumption|]. split; [assumption|].
      intros x' y [<-|Hin] Hy.
      * apply negb_true_iff. now apply Hb.
      * now apply Hx.
    + intros [[Ha Hca] [Hcb Hx]].
      split; [split; [assumption|]|split; [assumption|split; [assumption|]]].
      * intros y Hy. apply negb_true_iff. apply Hx; [now left | assumption].
      * intros x' y Hin Hy. apply Hx; [now right | assumption].
Qed.

(** A list of lists, each collision-free: their concatenation is
    collision-free exactly when no two timeslots of different lists
    collide. *)
Lemma collision_free_concat (ls : list (list Timeslot)) :
  Forall (fun l => collision_free l = true) ls ->
  (collision_free (List.concat ls) = true <->
   forall i j x y, (i < j)%nat ->
     In x (nth i ls []) -> In y (nth j ls []) -> collide x y = false).
Proof.
  induction 1 as [|l ls Hl Hls IH]; simpl.
  - split; [|reflexivity]. intros _ i j x y _ Hx. destruct i; destruct Hx.
  - rewrite collision_free_app, IH. split.
    + intros [_ [Hfree Hcross]] i j x y Hij Hx Hy.
      destruct j as [|j]; [lia|]. destruct i as [|i].
      * apply Hcross; [assumption|]. apply in_concat.
        exists (nth j ls []). split; [|assumption].
        destruct (Nat.lt_ge_cases j (List.length ls)) as [Hj|Hj].
        -- now apply nth_In.
        -- rewrite nth_overflow in Hy by assumption. destruct Hy.
      * apply (Hfree i j); [lia | assumption | assumption].
    + intros H. split; [assumption|]. split.
      * intros i j x y Hij Hx Hy. apply (H (S i) (S j)); [lia | assumption | assumption].
      * intros x y Hx Hy. apply in_concat in Hy. destruct Hy as [l' [Hl' Hy]].
        destruct (In_nth _ _ [] Hl') as [j [Hj Ej]].
        apply (H 0%nat (S j)); [lia | assumption |]. simpl. now rewrite Ej.
Qed.

(** A colliding pair can be found when there is one. *)
Lemma cross_collision_dec (a b : list Timeslot) :
  {exists x y, In x a /\ In y b /\ collide x y = true}
  + {forall x y, In x a -> In y b -> collide x y = false}.
Proof.
  induction a as [|x a IH].
  - right. intros ? ? [].
  - destruct (existsb (collide x) b) eqn:E.
    + left. apply existsb_exists in E. destruct E as [y [Hy Hc]].
      exists x, y. simpl; auto.
    + destruct IH as [IH|IH].
      * left. destruct IH as [x' [y [Hx [Hy Hc]]]]. exists x', y. simpl; auto.
      * right. intros x' y [<-|Hx] Hy; [|now apply IH].
        destruct (collide x y) eqn:Ec; [|reflexivity].
        assert (existsb (collide x) b = true) by (apply existsb_exists; eauto).
        congruence.
Qed.

Lemma lists_collision_dec (ls : list (list Timeslot)) :
  {exists i j x y, (i < j)%nat /\ In x (nth i ls []) /\ In y (nth j ls [])
                   /\ collide x y = true}
  + {forall i j x y, (i < j)%nat ->
       In x (nth i ls []) -> In y (nth j ls []) -> collide x y = false}.
Proof.
  induction ls as [|l ls IH].
  - right. intros i j x y _ Hx. destruct i; destruct Hx.
  - destruct (cross_collision_dec l (List.concat ls)) as [Hc|Hc].
    + left. destruct Hc as [x [y [Hx [Hy Hc]]]].
      apply in_concat in Hy. destruct Hy as [l' [Hl' Hy]].
      destruct (In_nth _ _ [] Hl') as [j [Hj Ej]].
      exists 0%nat, (S j), x, y. simpl. rewrite Ej. repeat split; auto. lia.
    + destruct IH as [IH|IH].
      * left. destruct IH as [i [j [x [y [Hij [Hx [Hy Hcol]]]]]]].
        exists (S i), (S j), x, y. simpl. repeat split; auto. lia.
      * right. intros i j x y Hij Hx Hy.
        destruct j as [|j]; [lia|]. destruct i as [|i].
        -- apply Hc; [assumption|]. simpl in Hy. apply in_concat.
           exists (nth j ls []). split; [|assumption].
           destruct (Nat.lt_ge_cases j (List.length ls)) as [Hj|Hj].
           ++ now apply nth_In.
           ++ rewrite nth_overflow in Hy by assumption. destruct Hy.
        -- apply (IH i j); [lia | assumption | assumption].
Qed.

(** ** What the constructor computes *)

Lemma child_timeslots_run s shift r o :
  nth_error s r = Some o ->
  Schedule.child_timeslots shift r s
  = (Ok (TimeslotCollection.shift (obj_timeslots o) shift), s).
Proof.
  intros E. unfold Schedule.child_timeslots.
  rewrite (bind_Ok _ _ _ _ _ (load_Some _ _ _ E)).
  destruct (Z.eqb_spec shift 0) as [->|Hne]; [|reflexivity].
  now rewrite shift_0.
Qed.

Lemma for_each_child_timeslots s schedules shift :
  valid_refs s schedules ->
  for_each schedules (Schedule.child_timeslots shift) s
  = (Ok (map (fun r => TimeslotCollection.shift (slots_of s r) shift) schedules), s).
Proof.
  induction 1 as [|r rs Hr Hrs IH]; simpl; [reflexivity|].
  destruct (nth_error s r) as [o|] eqn:E; [|congruence].
  rewrite (bind_Ok _ _ _ _ _ (child_timeslots_run _ shift _ _ E)).
  rewrite (bind_Ok _ _ _ _ _ IH). unfold ret, slots_of. now rewrite E.
Qed.

Lemma nth_shifted_children s schedules shift i :
  nth i (map (fun r => TimeslotCollection.shift (slots_of s r) shift) schedules) []
  = TimeslotCollection.shift (child_slots s schedules i) shift.
Proof.
  unfold child_slots. revert i.
  induction schedules as [|r rs IH]; intros [|i]; simpl; auto.
Qed.

Lemma shifted_children_wf s schedules shift :
  store_wf s ->
  Forall (fun l => collision_free l = true)
    (map (fun r => TimeslotCollection.shift (slots_of s r) shift) schedules).
Proof.
  intros Hwf. apply Forall_map. apply Forall_forall. intros r _.
  rewrite collision_free_shift. unfold slots_of.
  destruct (nth_error s r) as [o|] eqn:E; [|reflexivity].
  unfold store_wf in Hwf. rewrite Forall_forall in Hwf.
  apply Hwf. eapply nth_error_In; eassumption.
Qed.

(** All the shifted timeslots of the children, in order. *)
Lemma Schedule_init_run s schedules shift name :
  valid_refs s schedules ->
  Schedule.init schedules shift name s
  = let all := List.concat
                 (map (fun r => TimeslotCollection.shift (slots_of s r) shift)
                      schedules) in
    if collision_free all
    then (Ok (List.length s), (s ++ [ScheduleObj name shift all schedules]))
    else (Raise (PulseError "Child schedules overlap."), s).
Proof.
  intros Hv. unfold Schedule.init.
  rewrite (bind_Ok _ _ _ _ _ (for_each_child_timeslots _ _ shift Hv)).
  unfold TimeslotCollection.init. simpl.
  destruct (collision_free _); reflexivity.
Qed.

Lemma children_collide_iff s schedules shift :
  store_wf s ->
  (children_collide s schedules shift <->
   collision_free
     (List.concat (map (fun r => TimeslotCollection.shift (slots_of s r) shift)
                       schedules)) = false).
Proof.
  intros Hwf.
  pose proof (collision_free_concat _ (shifted_children_wf _ schedules shift Hwf)) as Hc.
  split.
  - intros [i [j [x [y [Hij [Hx [Hy Hcol]]]]]]].
    apply not_true_is_false. intros Hfree.
    rewrite Hc in Hfree.
    rewrite <- nth_shifted_children in Hx, Hy.
    rewrite (Hfree i j x y Hij Hx Hy) in Hcol. discriminate.
  - intros Hfalse.
    destruct (lists_collision_dec
                (map (fun r => TimeslotCollection.shift (slots_of s r) shift)
                     schedules)) as [Hex|Hall].
    + destruct Hex as [i [j [x [y [Hij [Hx [Hy Hcol]]]]]]].
      rewrite nth_shifted_children in Hx, Hy.
      exists i, j, x, y. auto.
    + apply Hc in Hall. congruence.
Qed.

(** ** The insertion time [push_append] computes *)

Lemma In_nodup_channels c l :
  In c (TimeslotCollection.nodup_channels l) -> In c l.
Proof.
  induction l as [|x l IH]; simpl; [tauto|].
  destruct (mem_channel x l); simpl; intuition.
Qed.

Lemma intervals_on_channel ts c :
  In c (TimeslotCollection.channels ts) ->
  TimeslotCollection.intervals_on ts [c] <> [].
Proof.
  unfold TimeslotCollection.channels, TimeslotCollection.intervals_on.
  intros Hin. apply In_nodup_channels in Hin.
  apply in_map_iff in Hin. destruct Hin as [slot [<- Hslot]].
  assert (Hf : In slot (filter (fun s => mem_channel (ts_channel s) [ts_channel slot]) ts)).
  { apply filter_In. split; [assumption|].
    apply mem_channel_In. now left. }
  intros Hnil. apply map_eq_nil in Hnil. rewrite Hnil in Hf. destruct Hf.
Qed.

Lemma ch_stop_time_on ts c :
  In c (TimeslotCollection.channels ts) ->
  TimeslotCollection.ch_stop_time ts [c] = Ok (stop_on ts c).
Proof.
  intros Hin. apply intervals_on_channel in Hin.
  unfold stop_on, TimeslotCollection.ch_stop_time.
  destruct (TimeslotCollection.intervals_on ts [c]); [congruence | reflexivity].
Qed.

Lemma ch_start_time_on ts c :
  In c (TimeslotCollection.channels ts) ->
  TimeslotCollection.ch_start_time ts [c] = Ok (start_on ts c).
Proof.
  intros Hin. apply intervals_on_channel in Hin.
  unfold start_on, TimeslotCollection.ch_start_time.
  destruct (TimeslotCollection.intervals_on ts [c]); [congruence | reflexivity].
Qed.

Lemma In_common_channels c pcs ccs :
  In c (ops.common_channels pcs ccs) <-> In c pcs /\ In c ccs.
Proof.
  unfold ops.common_channels. rewrite filter_In, mem_channel_In. tauto.
Qed.

Lemma for_each_pure {S A B} (f : A -> M S B) (g : A -> B) (l : list A) s :
  (forall x, In x l -> f x s = (Ok (g x), s)) ->
  for_each l f s = (Ok (map g l), s).
Proof.
  induction l as [|x l IH]; intros H; simpl; [reflexivity|].
  rewrite (bind_Ok _ _ _ _ _ (H x (or_introl eq_refl))).
  rewrite (bind_Ok _ _ _ _ _ (IH (fun y Hy => H y (or_intror Hy)))).
  reflexivity.
Qed.

Lemma ch_slack_run s this other ot oo c :
  nth_error s this = Some ot -> nth_error s other = Some oo ->
  In c (TimeslotCollection.channels (obj_timeslots ot)) ->
  In c (TimeslotCollection.channels (obj_timeslots oo)) ->
  alignment.ch_slack this other c s
  = (Ok (TimeslotCollection.stop_time (obj_timeslots ot)
         - stop_on (obj_timeslots ot) c + start_on (obj_timeslots oo) c), s).
Proof.
  intros Et Eo Hct Hco.
  unfold alignment.ch_slack, Schedule.stop_time, Schedule.ch_stop_time,
    Schedule.ch_start_time, Schedule.timeslots, bind, ret, lift_result.
  rewrite !(load_Some _ _ _ Et), !(load_Some _ _ _ Eo).
  now rewrite (ch_stop_time_on _ _ Hct), (ch_start_time_on _ _ Hco).
Qed.

(** [np.argmin] points at a least element. *)
Lemma argmin_from_spec l : forall best_i best i,
  (alignment.argmin_from best_i best i l = best_i
   /\ forall x, In x l -> best <= x)
  \/ exists j m,
       alignment.argmin_from best_i best i l = (i + j)%nat
       /\ nth_error l j = Some m /\ m < best
       /\ forall x, In x l -> m <= x.
Proof.
  induction l as [|x l IH]; intros best_i best i; simpl.
  - left. split; [reflexivity | intros ? []].
  - destruct (Z.ltb_spec x best) as [Hlt|Hge].
    + right. destruct (IH i x (S i)) as [[E Hall]|[j [m [E [Hn [Hm Hall]]]]]].
      * exists 0%nat, x. rewrite E, Nat.add_0_r.
        repeat split; auto. intros y [<-|Hy]; [lia | now apply Hall].
      * exists (S j), m. rewrite E. repeat split; auto; try lia.
        intros y [<-|Hy]; [lia | now apply Hall].
    + destruct (IH best_i best (S i)) as [[E Hall]|[j [m [E [Hn [Hm Hall]]]]]].
      * left. split; [assumption|]. intros y [<-|Hy]; [lia | now apply Hall].
      * right. exists (S j), m. rewrite E. repeat split; auto; try lia.
        intros y [<-|Hy]; [lia | now apply Hall].
Qed.

Lemma argmin_spec x l :
  exists m, nth_error (x :: l) (alignment.argmin (x :: l)) = Some m
            /\ forall y, In y (x :: l) -> m <= y.
Proof.
  unfold alignment.argmin.
  destruct (argmin_from_spec l 0%nat x 1%nat) as [[E Hall]|[j [m [E [Hn [Hm Hall]]]]]];
    rewrite E.
  - exists x. split; [reflexivity|]. intros y [<-|Hy]; [lia | now apply Hall].
  - exists m. split; [exact Hn|]. intros y [<-|Hy]; [lia | now apply Hall].
Qed.

(** A maximum that is attained is the fold of [Z.max]. *)
Lemma fold_max_attained {A} (d : A -> Z) (c : A) (cs : list A) :
  (exists c', In c' (c :: cs)
              /\ fold_right (fun x m => Z.max (d x) m) (d c) cs = d c')
  /\ forall c', In c' (c :: cs) ->
       d c' <= fold_right (fun x m => Z.max (d x) m) (d c) cs.
Proof.
  induction cs as [|x cs [[c' [Hin E]] Hub]]; simpl.
  - split; [exists c; auto|]. intros c' [<-|[]]. lia.
  - split.
    + destruct (Z.max_spec (d x) (fold_right (fun x m => Z.max (d x) m) (d c) cs))
        as [[_ ->]|[_ ->]].
      * exists c'. split; [|assumption]. destruct Hin as [<-|Hin]; simpl; auto.
      * exists x. simpl; auto.
    + intros y [<-|[<-|Hy]].
      * specialize (Hub c (or_introl eq_refl)). lia.
      * lia.
      * specialize (Hub y (or_intror Hy)). lia.
Qed.

Lemma fold_max_eq {A} (d : A -> Z) (c : A) (cs : list A) (best : A) :
  In best (c :: cs) -> (forall c', In c' (c :: cs) -> d c' <= d best) ->
  fold_right (fun x m => Z.max (d x) m) (d c) cs = d best.
Proof.
  intros Hin Hub.
  destruct (fold_max_attained d c cs) as [[c' [Hin' E]] Hub'].
  specialize (Hub c' Hin'). specialize (Hub' best Hin). lia.
Qed.

Lemma channels_run s r o :
  nth_error s r = Some o ->
  Schedule.channels r s = (Ok (TimeslotCollection.channels (obj_timeslots o)), s).
Proof.
  intros E. unfold Schedule.channels, Schedule.timeslots, bind, ret.
  now rewrite (load_Some _ _ _ E).
Qed.

Lemma ch_stop_time_run s r o c :
  nth_error s r = Some o ->
  In c (TimeslotCollection.channels (obj_timeslots o)) ->
  Schedule.ch_stop_time r [c] s = (Ok (stop_on (obj_timeslots o) c), s).
Proof.
  intros E Hc. unfold Schedule.ch_stop_time, Schedule.timeslots, bind, ret, lift_result.
  now rewrite (load_Some _ _ _ E), (ch_stop_time_on _ _ Hc).
Qed.

Lemma ch_start_time_run s r o c :
  nth_error s r = Some o ->
  In c (TimeslotCollection.channels (obj_timeslots o)) ->
  Schedule.ch_start_time r [c] s = (Ok (start_on (obj_timeslots o) c), s).
Proof.
  intros E Hc. unfold Schedule.ch_start_time, Schedule.timeslots, bind, ret, lift_result.
  now rewrite (load_Some _ _ _ E), (ch_start_time_on _ _ Hc).
Qed.

Lemma nth_error_map_Some {A B} (f : A -> B) (l : list A) n m :
  nth_error (map f l) n = Some m -> exists x, nth_error l n = Some x /\ f x = m.
Proof.
  rewrite nth_error_map. destruct (nth_error l n); simpl; [|discriminate].
  intros [= <-]. eauto.
Qed.

(** The time [push_append] inserts at is the spec's maximum. *)
Lemma insert_time_run s this other ot oo :
  nth_error s this = Some ot -> nth_error s other = Some oo ->
  alignment.insert_time this other s
  = (Ok (spec_insert_time (obj_timeslots ot) (obj_timeslots oo)), s).
Proof.
  intros Et Eo. unfold alignment.insert_time, spec_insert_time.
  rewrite (bind_Ok _ _ _ _ _ (channels_run _ _ _ Et)).
  rewrite (bind_Ok _ _ _ _ _ (channels_run _ _ _ Eo)).
  set (tt := obj_timeslots ot). set (to := obj_timeslots oo).
  set (shared := ops.common_channels (TimeslotCollection.channels tt)
                                     (TimeslotCollection.channels to)).
  assert (Hshared : forall c, In c shared ->
            In c (TimeslotCollection.channels tt)
            /\ In c (TimeslotCollection.channels to)).
  { intros c Hc. now apply In_common_channels. }
  set (slack := fun c => TimeslotCollection.stop_time tt - stop_on tt c + start_on to c).
  assert (Hrun : for_each shared (alignment.ch_slack this other) s
                 = (Ok (map slack shared), s)).
  { apply for_each_pure. intros c Hc. destruct (Hshared c Hc) as [H1 H2].
    now apply ch_slack_run. }
  rewrite (bind_Ok _ _ _ _ _ Hrun).
  destruct shared as [|c cs] eqn:Esh; [reflexivity|].
  destruct (argmin_spec (slack c) (map slack cs)) as [m [Hn Hmin]].
  apply (nth_error_map_Some slack (c :: cs)) in Hn.
  destruct Hn as [best [Ebest Hm]].
  change (map slack (c :: cs)) with (slack c :: map slack cs).
  cbv iota. rewrite Ebest.
  assert (Hbest : In best (c :: cs)) by (eapply nth_error_In; eassumption).
  destruct (Hshared best Hbest) as [Hb1 Hb2].
  rewrite (bind_Ok _ _ _ _ _ (ch_stop_time_run _ _ _ _ Et Hb1)).
  rewrite (bind_Ok _ _ _ _ _ (ch_start_time_run _ _ _ _ Eo Hb2)).
  unfold ret. f_equal. f_equal. symmetry.
  apply (fold_max_eq (fun c' => stop_on tt c' - start_on to c') c cs best Hbest).
  intros c' Hc'.
  assert (Hle : m <= slack c').
  { apply Hmin. change (slack c :: map slack cs) with (map slack (c :: cs)).
    now apply in_map. }
  subst m. unfold slack in Hle. lia.
Qed.

(** ** Runs of the alignment functions *)

Lemma new_empty_run s :
  Schedule.new [] [] s = (Ok (List.length s), (s ++ [empty_schedule])).
Proof. reflexivity. Qed.

Lemma duration_empty_run s :
  Schedule.duration (List.length s) (s ++ [empty_schedule])
  = (Ok 0, (s ++ [empty_schedule])).
Proof.
  unfold Schedule.duration, Schedule.timeslots, bind, ret.
  now rewrite (load_Some _ _ _ (nth_error_alloc s empty_schedule)).
Qed.

Lemma channels_empty_run s :
  Schedule.channels (List.length s) (s ++ [empty_schedule])
  = (Ok [], (s ++ [empty_schedule])).
Proof. now rewrite (channels_run _ _ _ (nth_error_alloc s empty_schedule)). Qed.

Lemma left_align_nil_run s :
  alignment.left_align [] s = (Ok (List.length s), (s ++ [empty_schedule])).
Proof. reflexivity. Qed.

Lemma left_align_cons_raises f l s :
  exists e, alignment.left_align (f :: l) s
            = (Raise e, (s ++ [empty_schedule]))
            /\ is_PulseError e = false.
Proof.
  unfold alignment.left_align.
  rewrite (bind_Ok _ _ _ _ _ (new_empty_run s)). simpl for_fold.
  destruct (push_append_fails_quietly (List.length s) f (s ++ [empty_schedule]))
    as [e [E He]].
  exists e. split; [|exact He]. now apply bind_Raise.
Qed.

Lemma Schedule_insert_TypeError s self t other o :
  nth_error s other = Some o ->
  Schedule_insert self t other [] s = (Raise (TypeError "shift_time"), s).
Proof.
  intros E. unfold Schedule_insert, ops.insert. simpl.
  unfold bind at 1. simpl.
  now rewrite (bind_Raise _ _ _ _ _ (ops_shift_TypeError other t None s o E)).
Qed.

Lemma push_append_TypeError s this other ot oo :
  nth_error s this = Some ot -> nth_error s other = Some oo ->
  alignment.push_append this other s = (Raise (TypeError "shift_time"), s).
Proof.
  intros Et Eo. unfold alignment.push_append.
  rewrite (bind_Ok _ _ _ _ _ (insert_time_run _ _ _ _ _ Et Eo)).
  now apply Schedule_insert_TypeError with (o := oo).
Qed.

(** ** The builder: appending to the active block *)

Lemma block_append_TypeError b h x :
  builder.block_append x (Some b, h) = (Raise (TypeError "mutate"), (Some b, h)).
Proof. reflexivity. Qed.

Lemma block_append_raises x s :
  exists e s', builder.block_append x s = (Raise e, s').
Proof.
  destruct s as [[b|] h].
  - exists (TypeError "mutate"), (Some b, h). apply block_append_TypeError.
  - exists NoActiveBuilder, (None, h). reflexivity.
Qed.

Lemma compile_lazy_circuit_cases s :
  builder._compile_lazy_circuit s = (Ok tt, s)
  \/ exists e s', builder._compile_lazy_circuit s = (Raise e, s').
Proof.
  destruct s as [[b|] h]; [|right; exists NoActiveBuilder, (None, h); reflexivity].
  destruct b as [backend block lazy schedule].
  destruct lazy as [[|g gs]|]; [left; reflexivity| |left; reflexivity].
  right. destruct backend as [backend|].
  - unfold builder._compile_lazy_circuit, bind, builder.lift_store,
      builder._active_builder, builder.set_builder. simpl.
    destruct (builder.compile_and_schedule backend (g :: gs) h) as [[sched|e] h'].
    + eexists; eexists. reflexivity.
    + eexists; eexists. reflexivity.
  - eexists; eexists. reflexivity.
Qed.

Lemma append_instruction_raises i s :
  exists e s', builder.append_instruction i s = (Raise e, s').
Proof.
  unfold builder.append_instruction, builder.PulseBuilder_append_instruction.
  destruct s as [[b|] h]; [|exists NoActiveBuilder, (None, h); reflexivity].
  unfold bind at 1. simpl.
  destruct (compile_lazy_circuit_cases (Some b, h)) as [E|[e [s' E]]].
  - rewrite (bind_Ok _ _ _ _ _ E). eexists; eexists. apply block_append_TypeError.
  - rewrite (bind_Raise _ _ _ _ _ E). eauto.
Qed.

Lemma new_ShiftPhase_run phase channel h :
  builder.new_ShiftPhase phase channel h
  = (Ok (List.length h),
     (h ++ [InstructionObj None (ShiftPhase phase) 0
              [mkTimeslot (mkInterval 0 0) channel]])).
Proof. reflexivity. Qed.

Lemma shift_phase_raises phase channel s :
  exists e s', builder.shift_phase phase channel s = (Raise e, s').
Proof.
  destruct s as [b h]. unfold builder.shift_phase.
  assert (Hrun : builder.lift_store (builder.new_ShiftPhase phase channel) (b, h)
                 = (Ok (List.length h),
                    (b, (h ++ [InstructionObj None (ShiftPhase phase) 0
                                 [mkTimeslot (mkInterval 0 0) channel]]))))
    by reflexivity.
  rewrite (bind_Ok _ _ _ _ _ Hrun).
  apply append_instruction_raises.
Qed.

Lemma store_100_20_wf : store_wf store_100_20.
Proof. repeat constructor. Qed.

Lemma store_same_channel_wf : store_wf store_same_channel.
Proof. repeat constructor. Qed.

(* ================================================================== *)
(** * The specification's properties, on the code *)

(** C1 (defect of the code).  Building a union is meant to fail with
    [PulseError] exactly when two of the shifted children collide.  In
    the code [ops.union] calls [Schedule(..., shift_time=..., name=...)]
    while [Schedule.__init__] declares the keyword [shift]: for every
    list of fragments, every shift and every name the call raises,
    what it raises is never a [PulseError], no composite is built and
    the store is left as it was.  On the two leaves of [store_100_20],
    which do not collide, [union] raises [TypeError] where a composite
    is due; on one leaf given twice, which collides with itself, it
    raises [TypeError] where [PulseError] is due. *)
Theorem union_never_builds :
  (forall schedules shift_time name s,
      fails_quietly (ops.union schedules shift_time name) s)
  /\ ~ children_collide store_100_20 [0%nat; 1%nat] 0
  /\ ops.union [0%nat; 1%nat] 0 None store_100_20
     = (Raise (TypeError "shift_time"), store_100_20)
  /\ children_collide store_100_20 [0%nat; 0%nat] 0
  /\ ops.union [0%nat; 0%nat] 0 None store_100_20
     = (Raise (TypeError "shift_time"), store_100_20).
Proof.
  split; [intros; apply ops_union_fails_quietly|].
  split.
  { rewrite (children_collide_iff _ _ _ store_100_20_wf). discriminate. }
  split; [reflexivity|].
  split; [|reflexivity].
  apply (children_collide_iff _ _ _ store_100_20_wf). reflexivity.
Qed.

(** C2 (defect of the code).  [left_align] is meant to fold the
    fragments into an accumulator, inserting each at the latest time
    the shared channels force.  In the code the accumulator starts as
    the empty schedule and [push_append] computes that time, but its
    [this.insert(insert_time, other)] goes through [ops.insert] and
    [ops.shift] to the constructor call with the undeclared keyword
    [shift_time]: for every non-empty list the first insertion raises,
    nothing is inserted, and only the empty accumulator has been
    created.  For the two leaves of [store_100_20], which the spec
    places at time 0, the run ends in [TypeError]. *)
Theorem left_align_inserts_nothing :
  (forall f l s, exists e,
      alignment.left_align (f :: l) s = (Raise e, (s ++ [empty_schedule]))
      /\ is_PulseError e = false)
  /\ alignment.left_align [0%nat; 1%nat] store_100_20
     = (Raise (TypeError "shift_time"), (store_100_20 ++ [empty_schedule])).
Proof.
  split; [intros; apply left_align_cons_raises | reflexivity].
Qed.

(** C3 (defect of the code).  [append(p, c)] is meant to insert [c] at
    the latest stop of [p] over the channels they share.  In the code
    the insertion goes through [ops.insert] to [ops.shift], whose
    constructor call uses the undeclared keyword [shift_time]: [append]
    returns for no parent and child, and leaves the store as it was.
    For the two leaves of [store_same_channel], which share [d0], it
    raises [TypeError] where the second leaf is due at time 10. *)
Theorem append_never_inserts :
  (forall parent child name s, fails_quietly (ops.append parent child name) s)
  /\ ops.append 0%nat 1%nat None store_same_channel
     = (Raise (TypeError "shift_time"), store_same_channel)
  /\ Schedule_append 0%nat 1%nat [] store_same_channel
     = (Raise (TypeError "shift_time"), store_same_channel).
Proof.
  split; [intros; apply ops_append_fails_quietly|].
  split; reflexivity.
Qed.

(** C4 (defect of the code).  [align_in_sequence] is meant to place
    each fragment at the total duration so far.  In the code each pass
    calls [aligned.insert(aligned.duration, instruction, mutate=True)];
    [Schedule.insert] declares no keyword [mutate] (and returns a new
    schedule, which the loop drops): for every non-empty list the first
    pass raises [TypeError], with only the empty schedule created.  For
    the three leaves of duration 10 of [store_10_10_10], which the
    spec places at 0, 10 and 20, the run ends in [TypeError]. *)
Theorem align_in_sequence_raises :
  (forall f l s,
      alignment.align_in_sequence (f :: l) s
      = (Raise (TypeError "mutate"), (s ++ [empty_schedule])))
  /\ alignment.align_in_sequence [0%nat; 1%nat; 2%nat] store_10_10_10
     = (Raise (TypeError "mutate"), (store_10_10_10 ++ [empty_schedule])).
Proof.
  assert (H : forall f l s,
      alignment.align_in_sequence (f :: l) s
      = (Raise (TypeError "mutate"), (s ++ [empty_schedule]))).
  { intros f l s. unfold alignment.align_in_sequence.
    rewrite (bind_Ok _ _ _ _ _ (new_empty_run s)). simpl for_each.
    unfold bind at 1. unfold bind at 1. unfold bind at 1.
    now rewrite duration_empty_run. }
  split; [exact H | apply H].
Qed.

(** C5 (defect of the code).  [right_align] of a 100-unit and a
    20-unit leaf on independent channels is meant to start the 20-unit
    leaf at 80.  In the code [right_align] first calls [left_align],
    which raises in its first insertion (see C2); and on the empty
    list, where [left_align] returns, [left_aligned.instructions] is
    not an attribute of [Schedule].  So [right_align] returns for no
    input; on the two leaves of [store_100_20] it raises [TypeError]. *)
Theorem right_align_never_returns :
  (forall l s, exists e s', alignment.right_align l s = (Raise e, s'))
  /\ alignment.right_align [0%nat; 1%nat] store_100_20
     = (Raise (TypeError "shift_time"), (store_100_20 ++ [empty_schedule])).
Proof.
  split; [|reflexivity].
  intros [|f l] s; unfold alignment.right_align.
  - rewrite (bind_Ok _ _ _ _ _ (left_align_nil_run s)).
    rewrite (bind_Ok _ _ _ _ _ (channels_empty_run s)).
    eexists; eexists. reflexivity.
  - destruct (left_align_cons_raises f l s) as [e [E _]].
    rewrite (bind_Raise _ _ _ _ _ E). eauto.
Qed.

(** C6 (defect of the code).  [shift] is meant never to fail, and two
    shifts to equal one shift by the sum.  In the code [ops.shift]
    calls the constructor with the undeclared keyword [shift_time]: it
    returns for no fragment and no time, so neither side of the
    equation has an occupancy.  On the 100-unit leaf of [store_100_20]
    a shift by 5 raises [TypeError]. *)
Theorem shift_never_returns :
  (forall schedule time name s, fails_quietly (ops.shift schedule time name) s)
  /\ ops.shift 0%nat 5 None store_100_20
     = (Raise (TypeError "shift_time"), store_100_20)
  /\ Schedule_shift 0%nat 5 store_100_20
     = (Raise (TypeError "shift_time"), store_100_20).
Proof.
  split; [intros; apply ops_shift_fails_quietly|].
  split; reflexivity.
Qed.

(** C7 (defect of the code).  [left_align] is meant to be idempotent.
    In the code [left_align] of no fragment returns the empty schedule,
    and [left_align] of that result raises [TypeError] in its first
    insertion: on the empty list one application returns and two do
    not. *)
Theorem left_align_twice_raises :
  forall s, exists r s1,
    alignment.left_align [] s = (Ok r, s1)
    /\ nth_error s1 r = Some empty_schedule
    /\ alignment.left_align [r] s1
       = (Raise (TypeError "shift_time"), (s1 ++ [empty_schedule])).
Proof.
  intros s. exists (List.length s), (s ++ [empty_schedule]).
  split; [reflexivity|]. split; [apply nth_error_alloc|].
  unfold alignment.left_align.
  rewrite (bind_Ok _ _ _ _ _ (new_empty_run _)). simpl for_fold.
  assert (E : alignment.push_append (List.length (s ++ [empty_schedule])) (List.length s)
                ((s ++ [empty_schedule]) ++ [empty_schedule])
              = (Raise (TypeError "shift_time"),
                 ((s ++ [empty_schedule]) ++ [empty_schedule]))).
  { apply push_append_TypeError with (ot := empty_schedule) (oo := empty_schedule).
    - apply nth_error_alloc.
    - rewrite nth_error_app1 by (rewrite length_app; simpl; lia).
      apply nth_error_alloc. }
  now rewrite (bind_Raise _ _ _ _ _ E).
Qed.

Lemma fails_quietly_frame {A} (c : M store A) s :
  fails_quietly c s -> fails_quietly c s /\ unmodified s (snd (c s)).
Proof.
  intros H. split; [exact H|].
  destruct H as [e [E _]]. rewrite E. intros r o Hr. exact Hr.
Qed.

(** C8 (defect of the code).  Every composition operator is meant to
    return a new fragment and to leave its inputs as they were.  The
    second half holds: after [union], [shift], [insert] or [append], as
    a function of [ops] and as a method of [Schedule], every object
    that was in the store is exactly as it was (same name, shift,
    timeslots and children).  The first half does not: for every input
    and every store each of them raises, so none of them ever returns
    a fragment; on the two leaves of [store_100_20] ([append]: on the
    two leaves of [store_same_channel], which share their channel) each
    raises the [TypeError] of the keyword [shift_time].  Only the
    constructor they
    all end in, called with its own keywords, returns: it leaves the
    objects of the store as they were and what it returns is an object
    that was not in the store, on the two leaves the reference 2. *)
Theorem operators_never_return_a_fragment :
  (forall s schedules shift_time name,
      fails_quietly (ops.union schedules shift_time name) s
      /\ unmodified s (snd (ops.union schedules shift_time name s)))
  /\ (forall s schedule time name,
      fails_quietly (ops.shift schedule time name) s
      /\ unmodified s (snd (ops.shift schedule time name s)))
  /\ (forall s parent start_time child name,
      fails_quietly (ops.insert parent start_time child name) s
      /\ unmodified s (snd (ops.insert parent start_time child name s)))
  /\ (forall s parent child name,
      fails_quietly (ops.append parent child name) s
      /\ unmodified s (snd (ops.append parent child name s)))
  /\ (forall s self schedules,
      fails_quietly (Schedule_union self schedules) s
      /\ unmodified s (snd (Schedule_union self schedules s)))
  /\ (forall s self time,
      fails_quietly (Schedule_shift self time) s
      /\ unmodified s (snd (Schedule_shift self time s)))
  /\ (forall s self start_time schedule kws,
      fails_quietly (Schedule_insert self start_time schedule kws) s
      /\ unmodified s (snd (Schedule_insert self start_time schedule kws s)))
  /\ (forall s self schedule kws,
      fails_quietly (Schedule_append self schedule kws) s
      /\ unmodified s (snd (Schedule_append self schedule kws s)))
  /\ ops.union [0%nat; 1%nat] 0 None store_100_20
     = (Raise (TypeError "shift_time"), store_100_20)
  /\ ops.shift 0%nat 5 None store_100_20
     = (Raise (TypeError "shift_time"), store_100_20)
  /\ ops.insert 0%nat 100 1%nat None store_100_20
     = (Raise (TypeError "shift_time"), store_100_20)
  /\ ops.append 0%nat 1%nat None store_same_channel
     = (Raise (TypeError "shift_time"), store_same_channel)
  /\ (forall s schedules kws,
      unmodified s (snd (Schedule.new schedules kws s))
      /\ returns_new s (Schedule.new schedules kws s))
  /\ fst (Schedule.new [0%nat; 1%nat] [kw_shift 0] store_100_20) = Ok 2%nat.
Proof.
  split; [intros; apply fails_quietly_frame, ops_union_fails_quietly|].
  split; [intros; apply fails_quietly_frame, ops_shift_fails_quietly|].
  split; [intros; apply fails_quietly_frame, ops_insert_fails_quietly|].
  split; [intros; apply fails_quietly_frame, ops_append_fails_quietly|].
  split; [intros; apply fails_quietly_frame, ops_union_fails_quietly|].
  split; [intros; apply fails_quietly_frame, ops_shift_fails_quietly|].
  split; [intros; apply fails_quietly_frame, Schedule_insert_fails_quietly|].
  split; [intros; apply fails_quietly_frame, Schedule_append_fails_quietly|].
  split; [reflexivity|]. split; [reflexivity|].
  split; [reflexivity|]. split; [reflexivity|].
  split; [|reflexivity].
  intros; apply pure_operator;
    [apply only_allocates_new | apply allocates_result_new].
Qed.

(** C9 (defect of the code).  The phase-offset context is meant to
    append a shift by [+x] on entry and a shift by [-x] on exit.  In
    the code [shift_phase] reaches
    [self.block.append(instruction, mutate=True)], and [Schedule.append]
    declares no keyword [mutate]: for every phase, channel and state
    the context raises on entry, whatever its body is, so the body and
    the exit never run.  In the state a fresh [with build():] gives,
    entering the context with phase 1 on [d0] raises [TypeError]; the
    leaf has been created, and the active block (reference 2) is still
    the empty schedule. *)
Theorem phase_offset_raises_on_entry :
  (forall phase channel s, exists e s',
      forall A (body : M builder.state A),
        builder.phase_offset phase channel body s = (Raise e, s'))
  /\ (forall A (body : M builder.state A),
        builder.phase_offset 1%float d0 body state_built
        = (Raise (TypeError "mutate"),
           (fst state_built,
            (snd state_built
               ++ [InstructionObj None (ShiftPhase 1%float) 0
                     [mkTimeslot (mkInterval 0 0) d0]]))))
  /\ option_map builder._block (fst state_built) = Some 2%nat
  /\ nth_error (snd state_built) 2%nat = Some empty_schedule.
Proof.
  split.
  { intros phase channel s.
    destruct (shift_phase_raises phase channel s) as [e [s' E]].
    exists e, s'. intros A body. unfold builder.phase_offset.
    now rewrite (bind_Raise _ _ _ _ _ E). }
  split; [intros; reflexivity|]. split; reflexivity.
Qed.

(** C10.  For every schedule and every list of channels, [ch_duration]
    returns (or raises) exactly what [ch_start_time] does.  It is not a
    duration and not the latest stop: for the 100-unit leaf shifted by
    5 (reference 1 of [store_shifted]) [ch_duration] on [d0] is 5, the
    earliest start, while the duration and the latest stop on [d0] are
    105. *)
Theorem ch_duration_is_ch_start_time :
  (forall self chs s,
      Schedule.ch_duration self chs s = Schedule.ch_start_time self chs s)
  /\ Schedule.ch_duration 1%nat [d0] store_shifted = (Ok 5, store_shifted)
  /\ Schedule.duration 1%nat store_shifted = (Ok 105, store_shifted)
  /\ Schedule.ch_stop_time 1%nat [d0] store_shifted = (Ok 105, store_shifted).
Proof.
  split; [reflexivity|]. repeat split; reflexivity.
Qed.

(* ================================================================== *)
(** * The constructor called with its own keywords *)

Lemma store_wf_alloc s o :
  store_wf s -> collision_free (obj_timeslots o) = true ->
  store_wf (s ++ [o]).
Proof.
  intros Hs Ho. unfold store_wf. apply Forall_app. split; [exact Hs|].
  constructor; [exact Ho | constructor].
Qed.

Lemma reads_child_timeslots shift r : reads (Schedule.child_timeslots shift r).
Proof. unfold Schedule.child_timeslots. reading. Qed.

Lemma Schedule_init_wf schedules shift name s :
  store_wf s -> store_wf (snd (Schedule.init schedules shift name s)).
Proof.
  intros Hs. unfold Schedule.init, bind.
  destruct (reads_for_each (Schedule.child_timeslots shift) schedules
              (reads_child_timeslots shift) s) as [r [E _]].
  rewrite E. destruct r as [timeslots|e]; [|exact Hs].
  unfold TimeslotCollection.init.
  destruct (collision_free (List.concat timeslots)) eqn:Ec; [|exact Hs].
  simpl. now apply store_wf_alloc.
Qed.

(** The collision invariant: whatever the constructor is given, the
    store it leaves holds collision-free occupancies only, if the store
    it started from did. *)
Theorem constructor_keeps_collision_invariant schedules kws s :
  store_wf s -> store_wf (snd (Schedule.new schedules kws s)).
Proof.
  intros Hs. unfold Schedule.new.
  destruct (Schedule.bind_keywords kws 0 None) as [[sh nm]|e]; [|exact Hs].
  now apply Schedule_init_wf.
Qed.

Lemma constructor_keeps_collision_invariant_witness :
  store_wf (snd (Schedule.new [0%nat; 1%nat] [kw_shift 5] store_100_20)).
Proof.
  apply (constructor_keeps_collision_invariant [0%nat; 1%nat] [kw_shift 5]
           store_100_20).
  repeat constructor.
Defined.

(** The constructor called as [Schedule(..children, shift=shift, name=name)]
    on children that are in the store: it raises the [PulseError] of
    overlapping children exactly when two different children, shifted,
    hold colliding timeslots, and leaves the store as it was; otherwise
    it returns a new composite with these children and this shift whose
    occupancy is collision-free. *)
Theorem constructor_collision_iff s schedules shift name :
  store_wf s -> valid_refs s schedules ->
  (Schedule.new schedules [kw_shift shift; kw_name name] s
   = (Raise (PulseError "Child schedules overlap."), s)
   <-> children_collide s schedules shift)
  /\ (~ children_collide s schedules shift ->
      exists ts,
        Schedule.new schedules [kw_shift shift; kw_name name] s
        = (Ok (List.length s), (s ++ [ScheduleObj name shift ts schedules]))
        /\ collision_free ts = true).
Proof.
  intros Hwf Hv.
  change (Schedule.new schedules [kw_shift shift; kw_name name] s)
    with (Schedule.init schedules shift name s).
  rewrite (Schedule_init_run s schedules shift name Hv).
  rewrite (children_collide_iff s schedules shift Hwf). cbv zeta.
  destruct (collision_free _) eqn:Ec.
  - split.
    + split; [intros H; discriminate H | intros H; discriminate H].
    + intros _. eexists. split; [reflexivity | exact Ec].
  - split.
    + split; reflexivity.
    + intros H. now elim H.
Qed.

Lemma constructor_collision_iff_witness :
  (Schedule.new [0%nat; 1%nat] [kw_shift 5; kw_name None] store_100_20
   = (Raise (PulseError "Child schedules overlap."), store_100_20)
   <-> children_collide store_100_20 [0%nat; 1%nat] 5)
  /\ (~ children_collide store_100_20 [0%nat; 1%nat] 5 ->
      exists ts,
        Schedule.new [0%nat; 1%nat] [kw_shift 5; kw_name None] store_100_20
        = (Ok (List.length store_100_20),
           (store_100_20 ++ [ScheduleObj None 5 ts [0%nat; 1%nat]]))
        /\ collision_free ts = true).
Proof.
  apply (constructor_collision_iff store_100_20 [0%nat; 1%nat] 5 None).
  - repeat constructor.
  - repeat constructor; simpl; discriminate.
Defined.

(** Shift linearity of the constructor: wrapping a fragment with
    [shift=a] and the result with [shift=b] gives the occupancy of
    wrapping it once with [shift=a+b], the fragment's occupancy moved
    by [a+b]; none of the three calls fails. *)
Theorem constructor_shift_linear s f o a b :
  nth_error s f = Some o -> collision_free (obj_timeslots o) = true ->
  exists r1 s1 r2 s2 r3 s3,
    Schedule.new [f] [kw_shift a] s = (Ok r1, s1)
    /\ Schedule.new [r1] [kw_shift b] s1 = (Ok r2, s2)
    /\ Schedule.new [f] [kw_shift (a + b)] s = (Ok r3, s3)
    /\ slots_of s2 r2 = slots_of s3 r3
    /\ slots_of s3 r3 = TimeslotCollection.shift (obj_timeslots o) (a + b).
Proof.
  intros Ef Hfree.
  assert (Hv : valid_refs s [f]) by (repeat constructor; congruence).
  assert (Hslots : slots_of s f = obj_timeslots o)
    by (unfold slots_of; now rewrite Ef).
  pose (o1 := ScheduleObj None a (TimeslotCollection.shift (obj_timeslots o) a) [f]).
  assert (E1 : Schedule.new [f] [kw_shift a] s
               = (Ok (List.length s), (s ++ [o1]))).
  { change (Schedule.new [f] [kw_shift a] s) with (Schedule.init [f] a None s).
    rewrite (Schedule_init_run s [f] a None Hv). simpl.
    rewrite app_nil_r, Hslots, collision_free_shift, Hfree. reflexivity. }
  assert (Hv1 : valid_refs (s ++ [o1]) [List.length s]).
  { repeat constructor. rewrite nth_error_alloc. discriminate. }
  assert (Hslots1 : slots_of (s ++ [o1]) (List.length s)
                    = TimeslotCollection.shift (obj_timeslots o) a).
  { unfold slots_of. now rewrite nth_error_alloc. }
  pose (o2 := ScheduleObj None b
                (TimeslotCollection.shift (obj_timeslots o) (a + b))
                [List.length s]).
  assert (E2 : Schedule.new [List.length s] [kw_shift b] (s ++ [o1])
               = (Ok (List.length (s ++ [o1])), ((s ++ [o1]) ++ [o2]))).
  { change (Schedule.new [List.length s] [kw_shift b] (s ++ [o1]))
      with (Schedule.init [List.length s] b None (s ++ [o1])).
    rewrite (Schedule_init_run _ _ b None Hv1). simpl.
    rewrite app_nil_r, Hslots1, shift_shift, collision_free_shift, Hfree.
    reflexivity. }
  pose (o3 := ScheduleObj None (a + b)
                (TimeslotCollection.shift (obj_timeslots o) (a + b)) [f]).
  assert (E3 : Schedule.new [f] [kw_shift (a + b)] s
               = (Ok (List.length s), (s ++ [o3]))).
  { change (Schedule.new [f] [kw_shift (a + b)] s)
      with (Schedule.init [f] (a + b) None s).
    rewrite (Schedule_init_run s [f] (a + b) None Hv). simpl.
    rewrite app_nil_r, Hslots, collision_free_shift, Hfree. reflexivity. }
  exists (List.length s), (s ++ [o1]),
         (List.length (s ++ [o1])), ((s ++ [o1]) ++ [o2]),
         (List.length s), (s ++ [o3]).
  split; [exact E1|]. split; [exact E2|]. split; [exact E3|].
  unfold slots_of. rewrite !nth_error_alloc. split; reflexivity.
Qed.

Lemma constructor_shift_linear_witness :
  exists r1 s1 r2 s2 r3 s3,
    Schedule.new [0%nat] [kw_shift 3] store_100_20 = (Ok r1, s1)
    /\ Schedule.new [r1] [kw_shift 4] s1 = (Ok r2, s2)
    /\ Schedule.new [0%nat] [kw_shift (3 + 4)] store_100_20 = (Ok r3, s3)
    /\ slots_of s2 r2 = slots_of s3 r3
    /\ slots_of s3 r3
       = TimeslotCollection.shift
           [mkTimeslot (mkInterval 0 100) d0] (3 + 4).
Proof.
  apply (constructor_shift_linear store_100_20 0%nat
           (InstructionObj (Some "play") (OtherCommand "play") 100
              [mkTimeslot (mkInterval 0 100) d0]) 3 4).
  - reflexivity.
  - reflexivity.
Defined.

(** The insertion time of [push_append]: for an accumulator and a
    fragment that are in the store, [push_append] calls
    [this.insert(t, other)] with [t] the maximum over the channels they
    share of the accumulator's latest stop minus the fragment's
    earliest start on the channel, and 0 when they share none. *)
Theorem push_append_inserts_at_spec_time s this other ot oo :
  nth_error s this = Some ot -> nth_error s other = Some oo ->
  alignment.insert_time this other s
  = (Ok (spec_insert_time (obj_timeslots ot) (obj_timeslots oo)), s)
  /\ alignment.push_append this other s
     = Schedule_insert this
         (spec_insert_time (obj_timeslots ot) (obj_timeslots oo)) other [] s.
Proof.
  intros Et Eo. split; [now apply insert_time_run|].
  unfold alignment.push_append.
  now rewrite (bind_Ok _ _ _ _ _ (insert_time_run _ _ _ _ _ Et Eo)).
Qed.

Lemma push_append_inserts_at_spec_time_witness :
  alignment.insert_time 0%nat 1%nat store_same_channel
  = (Ok 10, store_same_channel)
  /\ alignment.push_append 0%nat 1%nat store_same_channel
     = Schedule_insert 0%nat 10 1%nat [] store_same_channel.
Proof.
  apply (push_append_inserts_at_spec_time store_same_channel 0%nat 1%nat
           (InstructionObj (Some "play") (OtherCommand "play") 10
              [mkTimeslot (mkInterval 0 10) d0])
           (InstructionObj (Some "play") (OtherCommand "play") 20
              [mkTimeslot (mkInterval 0 20) d0])).
  - reflexivity.
  - reflexivity.
Defined.

(* ================================================================== *)
(** * Flattening a schedule tree *)

Lemma slots_of_extend s extra c :
  (c < List.length s)%nat -> slots_of (s ++ extra) c = slots_of s c.
Proof. intros Hc. unfold slots_of. now rewrite nth_error_app1. Qed.

Lemma node_wf_extend s extra r o :
  (r <= List.length s)%nat -> node_wf s r o -> node_wf (s ++ extra) r o.
Proof.
  intros Hr. destruct o as [n c d ts|n sh ts cs]; simpl; [trivial|].
  intros [Hlt ->]. split; [assumption|]. f_equal.
  apply map_ext_in. intros c Hc. rewrite slots_of_extend; [reflexivity|].
  rewrite Forall_forall in Hlt. specialize (Hlt c Hc). lia.
Qed.

Lemma tree_wf_alloc s o :
  tree_wf s -> node_wf s (List.length s) o -> tree_wf (s ++ [o]).
Proof.
  intros Hs Ho r o' Hr.
  destruct (Nat.lt_ge_cases r (List.length s)) as [Hlt|Hge].
  - rewrite nth_error_app1 in Hr by assumption.
    apply node_wf_extend; [lia | now apply Hs].
  - assert (Hlen : (r < List.length (s ++ [o]))%nat)
      by (apply nth_error_Some; congruence).
    rewrite length_app in Hlen. simpl in Hlen.
    assert (r = List.length s) by lia. subst r.
    rewrite nth_error_alloc in Hr. injection Hr as <-.
    now apply node_wf_extend.
Qed.

Lemma valid_refs_lt s l :
  valid_refs s l -> Forall (fun c => (c < List.length s)%nat) l.
Proof.
  unfold valid_refs. apply Forall_impl. intros c Hc. now apply nth_error_Some.
Qed.

Lemma for_each_child_timeslots_invalid s schedules shift :
  ~ valid_refs s schedules ->
  for_each schedules (Schedule.child_timeslots shift) s
  = (Raise ReferenceError, s).
Proof.
  induction schedules as [|r rs IH]; intros Hn.
  - elim Hn. constructor.
  - simpl. destruct (nth_error s r) as [o|] eqn:E.
    + assert (Hn' : ~ valid_refs s rs).
      { intro H. apply Hn. constructor; [congruence | exact H]. }
      rewrite (bind_Ok _ _ _ _ _ (child_timeslots_run _ shift _ _ E)).
      now rewrite (bind_Raise _ _ _ _ _ (IH Hn')).
    + unfold Schedule.child_timeslots.
      rewrite (bind_Raise _ _ _ _ _
                 (bind_Raise _ _ _ _ _ (load_None _ _ E))).
      reflexivity.
Qed.

Lemma valid_refs_dec s l : {valid_refs s l} + {~ valid_refs s l}.
Proof.
  apply Forall_dec. intros r. destruct (nth_error s r).
  - left. discriminate.
  - right. intros H. now apply H.
Qed.

Lemma Schedule_init_tree_wf schedules shift name s :
  tree_wf s -> tree_wf (snd (Schedule.init schedules shift name s)).
Proof.
  intros Hs. destruct (valid_refs_dec s schedules) as [Hv|Hn].
  - rewrite (Schedule_init_run s schedules shift name Hv). cbv zeta.
    destruct (collision_free _); [|exact Hs].
    simpl. apply tree_wf_alloc; [exact Hs|].
    split; [now apply valid_refs_lt | reflexivity].
  - unfold Schedule.init.
    now rewrite (bind_Raise _ _ _ _ _
                   (for_each_child_timeslots_invalid s schedules shift Hn)).
Qed.

Lemma tree_wf_nil : tree_wf [].
Proof. intros [|r] o H; discriminate H. Qed.

(** The tree invariant: the constructor of composites and the
    constructor of leaves keep every composite of the store referring
    to older objects only, with the occupancy of its children moved by
    its shift. *)
Theorem constructors_keep_tree_invariant s :
  tree_wf s ->
  (forall schedules kws, tree_wf (snd (Schedule.new schedules kws s)))
  /\ (forall name cmd duration channels,
         tree_wf (snd (Instruction_init name cmd duration channels s))).
Proof.
  intros Hs. split.
  - intros schedules kws. unfold Schedule.new.
    destruct (Schedule.bind_keywords kws 0 None) as [[sh nm]|e]; [|exact Hs].
    now apply Schedule_init_tree_wf.
  - intros name cmd duration channels.
    unfold Instruction_init, bind, lift_result.
    destruct (TimeslotCollection.init _) as [ts|e]; [|exact Hs].
    simpl. apply tree_wf_alloc; [exact Hs | exact I].
Qed.

(** ** What flattening yields *)

Lemma shift_concat ls d :
  TimeslotCollection.shift (List.concat ls) d
  = List.concat (map (fun l => TimeslotCollection.shift l d) ls).
Proof. unfold TimeslotCollection.shift. apply concat_map. Qed.

Lemma placed_slots_app s l l' :
  placed_slots s (l ++ l') = placed_slots s l ++ placed_slots s l'.
Proof. unfold placed_slots. now rewrite map_app, concat_app. Qed.

(** The children of a composite, flattened one after the other. *)
Lemma yield_from_each_children s f time children :
  (forall c, In c children ->
     exists fl, f c = Some (Ok fl)
                /\ placed_slots s fl = TimeslotCollection.shift (slots_of s c) time
                /\ Forall (fun p => is_leaf s (snd p)) fl) ->
  exists fl, yield_from_each f children = Some (Ok fl)
             /\ placed_slots s fl
                = List.concat
                    (map (fun c => TimeslotCollection.shift (slots_of s c) time)
                         children)
             /\ Forall (fun p => is_leaf s (snd p)) fl.
Proof.
  induction children as [|c cs IH]; intros H; simpl.
  - exists []. repeat split. constructor.
  - destruct (H c (or_introl eq_refl)) as [fl [E [Hs Hl]]].
    destruct (IH (fun c' Hc' => H c' (or_intror Hc'))) as [fl' [E' [Hs' Hl']]].
    rewrite E, E'. exists (fl ++ fl'). split; [reflexivity|]. split.
    + now rewrite placed_slots_app, Hs, Hs'.
    + now apply Forall_app.
Qed.

Lemma flatten_tree s :
  tree_wf s ->
  forall bound r o time fuel,
    (r < bound)%nat -> nth_error s r = Some o -> (r < fuel)%nat ->
    exists fl,
      Schedule_flatten fuel s r time = Some (Ok fl)
      /\ placed_slots s fl = TimeslotCollection.shift (obj_timeslots o) time
      /\ Forall (fun p => is_leaf s (snd p)) fl.
Proof.
  intros Hwf. induction bound as [|bound IH]; intros r o time fuel Hb Hr Hf; [lia|].
  destruct fuel as [|fuel]; [lia|]. simpl. rewrite Hr.
  pose proof (Hwf r o Hr) as Hnode.
  destruct o as [n c d ts|n sh ts cs]; simpl in *.
  - exists [(time, r)]. split; [reflexivity|]. split.
    + unfold placed_slots, slots_of. simpl. rewrite Hr. simpl.
      now rewrite app_nil_r.
    + constructor; [|constructor]. exists n, c, d, ts. exact Hr.
  - destruct Hnode as [Hlt Hts]. rewrite Forall_forall in Hlt.
    destruct (yield_from_each_children s
                (fun child => Schedule_flatten fuel s child (time + sh))
                (time + sh) cs) as [fl [E [Hs Hl]]].
    { intros c Hc. specialize (Hlt c Hc).
      assert (Hlen : (r < List.length s)%nat) by (apply nth_error_Some; congruence).
      destruct (nth_error s c) as [oc|] eqn:Ec;
        [|apply nth_error_None in Ec; lia].
      destruct (IH c oc (time + sh) fuel) as [fl [E [Hs Hl]]]; try lia; auto.
      exists fl. split; [exact E|]. split; [|exact Hl].
      rewrite Hs. unfold slots_of. now rewrite Ec. }
    exists fl. split; [exact E|]. split; [|exact Hl].
    rewrite Hs, Hts, shift_concat, map_map. f_equal.
    apply map_ext. intros c. rewrite shift_shift. f_equal. lia.
Qed.

(** Flattening and occupancy agree: in a store of well-formed trees,
    flattening any object at any time returns, whatever depth beyond
    the object's own position is allowed; it yields leaves only; and
    the timeslots of the yielded leaves, each moved to the time it is
    yielded at, are the timeslots of the object moved by [time], in
    the same order. *)
Theorem flatten_gives_the_occupancy s r o time fuel :
  tree_wf s -> nth_error s r = Some o -> (r < fuel)%nat ->
  exists fl,
    Schedule_flatten fuel s r time = Some (Ok fl)
    /\ placed_slots s fl = TimeslotCollection.shift (obj_timeslots o) time
    /\ Forall (fun p => is_leaf s (snd p)) fl.
Proof.
  intros Hwf Hr Hf. apply (flatten_tree s Hwf (S r) r o time fuel); auto.
Qed.

Lemma store_nested_tree_wf : tree_wf store_nested.
Proof.
  intros r o H.
  destruct r as [|[|[|[|r]]]]; simpl in H.
  - injection H as <-. exact I.
  - injection H as <-. exact I.
  - injection H as <-. split; [repeat constructor | reflexivity].
  - injection H as <-. split; [repeat constructor | reflexivity].
  - destruct r; discriminate H.
Qed.

Lemma constructors_keep_tree_invariant_witness :
  fst (Schedule.new [3%nat] [kw_shift 100] store_nested) = Ok 4%nat
  /\ tree_wf (snd (Schedule.new [3%nat] [kw_shift 100] store_nested))
  /\ tree_wf (snd (Instruction_init (Some "play") (OtherCommand "play") 10
                     [d0] store_nested)).
Proof.
  split; [reflexivity|].
  split.
  - apply (proj1 (constructors_keep_tree_invariant store_nested
                    store_nested_tree_wf)).
  - apply (proj2 (constructors_keep_tree_invariant store_nested
                    store_nested_tree_wf)).
Defined.

Lemma flatten_gives_the_occupancy_witness :
  exists fl,
    Schedule_flatten 4 store_nested 3%nat 0 = Some (Ok fl)
    /\ placed_slots store_nested fl
       = TimeslotCollection.shift
           (obj_timeslots (nth 3 store_nested empty_schedule)) 0
    /\ Forall (fun p => is_leaf store_nested (snd p)) fl.
Proof.
  apply (flatten_gives_the_occupancy store_nested 3%nat
           (nth 3 store_nested empty_schedule) 0 4%nat).
  - exact store_nested_tree_wf.
  - reflexivity.
  - lia.
Defined.

Lemma later_later a b p : later b (later a p) = later (a + b) p.
Proof. destruct p as [t r]. unfold later; simpl. f_equal. lia. Qed.

Lemma map_yielded_compose f g out :
  map_yielded f (map_yielded g out) = map_yielded (fun p => f (g p)) out.
Proof.
  destruct out as [[l|e]|]; simpl; try reflexivity. now rewrite map_map.
Qed.

Lemma map_yielded_ext f g out :
  (forall p, f p = g p) -> map_yielded f out = map_yielded g out.
Proof.
  intros H. destruct out as [[l|e]|]; simpl; try reflexivity.
  f_equal. f_equal. now apply map_ext.
Qed.

Lemma yield_from_each_map f g h children :
  (forall c, f c = map_yielded h (g c)) ->
  yield_from_each f children = map_yielded h (yield_from_each g children).
Proof.
  intros H. induction children as [|c cs IH]; simpl; [reflexivity|].
  rewrite H, IH.
  destruct (g c) as [[l|e]|]; simpl; try reflexivity.
  destruct (yield_from_each g cs) as [[l'|e']|]; simpl; try reflexivity.
  now rewrite map_app.
Qed.

Lemma flatten_later fuel s : forall self time dt,
  Schedule_flatten fuel s self (time + dt)
  = map_yielded (later dt) (Schedule_flatten fuel s self time).
Proof.
  induction fuel as [|fuel IH]; intros self time dt; simpl; [reflexivity|].
  destruct (nth_error s self) as [[n c d ts|n sh ts cs]|]; simpl; try reflexivity.
  apply yield_from_each_map. intros c.
  replace (time + dt + sh) with (time + sh + dt) by lia. apply IH.
Qed.

(** The time given to [flatten] only moves what it yields: flattening
    at [time] yields the leaves that flattening at 0 yields, in the
    same order, each [time] later; it fails, or runs out of depth,
    exactly when flattening at 0 does. *)
Theorem flatten_at_time fuel s self time :
  Schedule_flatten fuel s self time
  = map_yielded (later time) (Schedule_flatten fuel s self 0).
Proof. exact (flatten_later fuel s self 0 time). Qed.

(* ================================================================== *)
(** * The operators of the class *)

(** The four operators of [Schedule] never give a schedule: [s + x],
    [s | x], [s << t] and [s >> t] raise for all operands, raise no
    [PulseError], and leave the store as it was.  On the two leaves of
    [store_100_20], [|], [<<] and [>>] raise the [TypeError] of the
    keyword [shift_time]. *)
Theorem schedule_operators_never_return s self other time :
  fails_quietly (Schedule_add self other) s
  /\ fails_quietly (Schedule_or self other) s
  /\ fails_quietly (Schedule_lshift self time) s
  /\ fails_quietly (Schedule_rshift self time) s
  /\ Schedule_or 0%nat 1%nat store_100_20
     = (Raise (TypeError "shift_time"), store_100_20)
  /\ Schedule_lshift 0%nat 5 store_100_20
     = (Raise (TypeError "shift_time"), store_100_20)
  /\ Schedule_rshift 0%nat 5 store_100_20
     = (Raise (TypeError "shift_time"), store_100_20).
Proof.
  split; [apply Schedule_append_fails_quietly|].
  split; [apply ops_union_fails_quietly|].
  split; [apply ops_shift_fails_quietly|].
  split; [apply ops_shift_fails_quietly|].
  repeat split.
Qed.

(* ================================================================== *)
(** * The lazily built circuit of the builder *)

Lemma call_circuit_lazy_run backend block pending schedule h circ :
  builder_call_circuit circ (with_backend backend block pending schedule h)
  = (Ok tt,
     with_backend backend block (Some (pending_gates pending ++ circ)) schedule h).
Proof. destruct pending as [gates|]; reflexivity. Qed.

(** Lazy calls only accumulate: with a backend set, calling circuits
    one after the other leaves the store and the active block as they
    were and consults no compiler; the pending circuit ends as the
    gates that were pending followed by the gates of the called
    circuits, in the order of the calls. *)
Theorem lazy_calls_accumulate backend block pending schedule h circ circs :
  for_each (circ :: circs) builder_call_circuit
    (with_backend backend block pending schedule h)
  = (Ok (map (fun _ => tt) (circ :: circs)),
     with_backend backend block
       (Some (pending_gates pending ++ List.concat (circ :: circs)))
       schedule h).
Proof.
  revert pending circ. induction circs as [|c cs IH]; intros pending circ.
  - simpl for_each. rewrite (bind_Ok _ _ _ _ _ (call_circuit_lazy_run _ _ _ _ _ _)).
    simpl. now rewrite app_nil_r.
  - change (for_each (circ :: c :: cs) builder_call_circuit)
      with (y <- builder_call_circuit circ ;;
            ys <- for_each (c :: cs) builder_call_circuit ;; ret (y :: ys)).
    rewrite (bind_Ok _ _ _ _ _ (call_circuit_lazy_run _ _ _ _ _ _)).
    rewrite (bind_Ok _ _ _ _ _ (IH _ _)).
    unfold ret. simpl pending_gates. simpl List.concat.
    now rewrite <- app_assoc.
Qed.

(** Without a backend a circuit cannot be called: [BackendNotSet], and
    the builder and the store stay as they were. *)
Lemma call_circuit_without_backend block pending schedule h circ :
  builder_call_circuit circ
    (Some (builder.mkBuilder None block pending schedule), h)
  = (Raise BackendNotSet,
     (Some (builder.mkBuilder None block pending schedule), h)).
Proof. reflexivity. Qed.

(** Flushing loses the pending gates: when gates are pending,
    [_compile_lazy_circuit] first replaces the lazy circuit by a new,
    empty one and then always raises: the compiler's own exception if
    it raises one, and else the [TypeError] of
    [self.block.append(.., mutate=True)].  Whichever it is, the
    builder is left with no pending gate and nothing appended to its
    block. *)
Theorem flush_discards_pending backend block g gs schedule h :
  exists e h',
    builder._compile_lazy_circuit
      (with_backend backend block (Some (g :: gs)) schedule h)
    = (Raise e, with_backend backend block (Some []) schedule h')
    /\ match builder.compile_and_schedule backend (g :: gs) h with
       | (Ok _, h1) => e = TypeError "mutate" /\ h' = h1
       | (Raise e1, h1) => e = e1 /\ h' = h1
       end.
Proof.
  unfold builder._compile_lazy_circuit, with_backend, bind, builder.lift_store,
    builder._active_builder, builder.set_builder. simpl.
  destruct (builder.compile_and_schedule backend (g :: gs) h) as [[sched|e] h1].
  - exists (TypeError "mutate"), h1. split; [reflexivity | split; reflexivity].
  - exists e, h1. split; [reflexivity | split; reflexivity].
Qed.

(* ================================================================== *)
(** * Qubits and channels of a barrier *)

Lemma In_set_add c c' chans :
  In c' (set_add c chans) <-> c' = c \/ In c' chans.
Proof.
  unfold set_add. destruct (mem_channel c chans) eqn:E.
  - apply mem_channel_In in E. split; [auto | intros [->|H]; assumption].
  - rewrite in_app_iff. simpl. split.
    + intros [H|[->|[]]]; auto.
    + intros [->|H]; auto.
Qed.

Lemma NoDup_set_add c chans : NoDup chans -> NoDup (set_add c chans).
Proof.
  intros Hnd. unfold set_add. destruct (mem_channel c chans) eqn:E; [assumption|].
  apply NoDup_app.
  - assumption.
  - constructor; [intros [] | constructor].
  - intros x Hx [<-|[]]. apply mem_channel_In in Hx. congruence.
Qed.

Lemma qubit_channels_run gqc backend block pending schedule h q l :
  gqc backend q = Ok l ->
  builder_qubit_channels gqc q (with_backend backend block pending schedule h)
  = (Ok (set_of l), with_backend backend block pending schedule h).
Proof.
  intros E. unfold builder_qubit_channels, builder_active_backend, with_backend,
    bind, builder._active_builder, lift_result, ret. simpl. now rewrite E.
Qed.

Lemma qubits_to_channels_loop_run gqc backend block pending schedule h args :
  (forall shown, ~ In (another shown) args) ->
  (forall q, In (a_qubit q) args -> exists l, gqc backend q = Ok l) ->
  forall acc, NoDup acc ->
  exists chans,
    qubits_to_channels_loop gqc args acc
      (with_backend backend block pending schedule h)
    = (Ok chans, with_backend backend block pending schedule h)
    /\ (forall c, In c chans <-> In c acc \/ In (a_channel c) args)
    /\ NoDup chans.
Proof.
  induction args as [|a args IH]; intros Hno Hq acc Hnd; simpl.
  - exists acc. split; [reflexivity|]. split; [tauto | assumption].
  - destruct a as [q|c|shown].
    + destruct (Hq q (or_introl eq_refl)) as [l El].
      rewrite (bind_Ok _ _ _ _ _
                 (qubit_channels_run gqc backend block pending schedule h q l El)).
      destruct (IH (fun sh H => Hno sh (or_intror H))
                   (fun q' H => Hq q' (or_intror H)) acc Hnd)
        as [chans [E [Hin Hnd']]].
      exists chans. split; [exact E|]. split; [|exact Hnd'].
      intros c. rewrite Hin. split.
      * intros [H|H]; auto.
      * intros [H|[H|H]]; auto. discriminate H.
    + destruct (IH (fun sh H => Hno sh (or_intror H))
                   (fun q' H => Hq q' (or_intror H)) (set_add c acc)
                   (NoDup_set_add c acc Hnd))
        as [chans [E [Hin Hnd']]].
      exists chans. split; [exact E|]. split; [|exact Hnd'].
      intros c'. rewrite Hin, In_set_add. split.
      * intros [[->|H]|H]; auto.
      * intros [H|[H|H]]; auto. injection H as ->. auto.
    + elim (Hno shown). now left.
Qed.

(** Qubits give no channels: for arguments that are qubit indices the
    backend knows and channels, [_qubits_to_channels] returns exactly
    the channels that were given as channels, each once, whatever
    channels the backend lists for the qubits; the builder and the
    store are left as they were. *)
Theorem qubits_to_channels_drops_qubits
    gqc backend block pending schedule h args :
  (forall shown, ~ In (another shown) args) ->
  (forall q, In (a_qubit q) args -> exists l, gqc backend q = Ok l) ->
  exists chans,
    _qubits_to_channels gqc args (with_backend backend block pending schedule h)
    = (Ok chans, with_backend backend block pending schedule h)
    /\ (forall c, In c chans <-> In (a_channel c) args)
    /\ NoDup chans.
Proof.
  intros Hno Hq.
  destruct (qubits_to_channels_loop_run gqc backend block pending schedule h
              args Hno Hq [] (NoDup_nil _)) as [chans [E [Hin Hnd]]].
  exists chans. split; [exact E|]. split; [|exact Hnd].
  intros c. rewrite Hin. simpl. tauto.
Qed.

Lemma qubits_to_channels_drops_qubits_witness :
  exists chans,
    _qubits_to_channels (fun _ _ => Ok [d0; d1]) [a_qubit 1; a_channel d2]
      (with_backend failing_backend 0%nat None 0%nat [])
    = (Ok chans, with_backend failing_backend 0%nat None 0%nat [])
    /\ (forall c, In c chans <-> In (a_channel c) [a_qubit 1; a_channel d2])
    /\ NoDup chans.
Proof.
  apply (qubits_to_channels_drops_qubits (fun _ _ => Ok [d0; d1])
           failing_backend 0%nat None 0%nat [] [a_qubit 1; a_channel d2]).
  - intros shown [H|[H|[]]]; discriminate H.
  - intros q _. exists [d0; d1]. reflexivity.
Defined.

(* ================================================================== *)
(** * The names of pulse commands *)

Lemma to_uint_not_nil n : Nat.to_uint n <> Decimal.Nil.
Proof.
  rewrite <- (DecimalNat.Unsigned.of_to n) at 1.
  rewrite DecimalNat.Unsigned.to_of. unfold Decimal.unorm.
  destruct (Decimal.nzhead (Nat.to_uint n)); discriminate.
Qed.

Lemma show_nat_inj a b : show_nat a = show_nat b -> a = b.
Proof.
  unfold show_nat. intros E.
  apply DecimalNat.Unsigned.to_uint_inj.
  assert (Ha := DecimalString.NilZero.usu _ (to_uint_not_nil a)).
  assert (Hb := DecimalString.NilZero.usu _ (to_uint_not_nil b)).
  rewrite E in Ha. rewrite Ha in Hb. now inversion Hb.
Qed.

Lemma default_name_inj a b :
  pulse_command.default_name a = pulse_command.default_name b -> a = b.
Proof.
  unfold pulse_command.default_name. simpl. intros E.
  inversion E. now apply show_nat_inj.
Qed.

Lemma NoDup_default_names n k :
  NoDup (map pulse_command.default_name (seq n k)).
Proof.
  revert n. induction k as [|k IH]; intros n; simpl.
  - constructor.
  - constructor; [|apply IH].
    intros Hin. apply in_map_iff in Hin. destruct Hin as (m & E & Hm).
    apply default_name_inj in E. apply in_seq in Hm. lia.
Qed.

Section pulse_command_proofs.

Import pulse_command.

Lemma create_cases (r : request) (n : nat) :
  match create r n with
  | (Ok c, n') =>
      int_duration r = true
      /\ (if unnamed r
          then _name c = default_name n /\ n' = S n
          else Some (_name c) = requested_name r /\ n' = n)
  | (Raise e, n') =>
      e = PulseError "Pulse duration should be integer."
      /\ int_duration r = false /\ n' = n
  end.
Proof.
  destruct r as [[cls d] name]. unfold create, init, unnamed, int_duration,
    requested_name, truthy. simpl.
  destruct d; simpl; auto.
  destruct name as [[|c rest]|]; simpl; auto.
Qed.

(** Commands are created one after the other from a value
    [pulseIndex] of the class counter.  If every duration is an [int],
    all are created; those whose request had no name (or an empty
    one) are named [p<pulseIndex>], [p<pulseIndex + 1>], ... in the
    order of creation, so their names are pairwise distinct, and the
    counter advances by their number and by nothing else.  If some
    duration is not an [int], the [PulseError] of the duration is
    raised. *)
Theorem unnamed_commands_get_fresh_names (reqs : list request) (pulseIndex : nat) :
  match for_each reqs create pulseIndex with
  | (Ok cmds, pulseIndex') =>
      forallb int_duration reqs = true
      /\ List.length cmds = List.length reqs
      /\ generated_names reqs cmds
         = map default_name (seq pulseIndex (List.length (filter unnamed reqs)))
      /\ NoDup (generated_names reqs cmds)
      /\ pulseIndex' = (pulseIndex + List.length (filter unnamed reqs))%nat
  | (Raise e, _) =>
      e = PulseError "Pulse duration should be integer."
      /\ forallb int_duration reqs = false
  end.
Proof.
  assert (H : match for_each reqs create pulseIndex with
  | (Ok cmds, pulseIndex') =>
      forallb int_duration reqs = true
      /\ List.length cmds = List.length reqs
      /\ generated_names reqs cmds
         = map default_name (seq pulseIndex (List.length (filter unnamed reqs)))
      /\ pulseIndex' = (pulseIndex + List.length (filter unnamed reqs))%nat
  | (Raise e, _) =>
      e = PulseError "Pulse duration should be integer."
      /\ forallb int_duration reqs = false
  end).
  { revert pulseIndex. induction reqs as [|r reqs IH]; intros n.
    - simpl. repeat split; auto.
    - cbn [for_each]. unfold bind at 1.
      pose proof (create_cases r n) as Hc.
      destruct (create r n) as [[c|e] n1].
      + destruct Hc as [Hi Hn]. unfold bind at 1.
        specialize (IH n1).
        destruct (for_each reqs create n1) as [[cmds|e] n2].
        * destruct IH as (Hall & Hlen & Hgen & Hn2).
          cbn [ret forallb List.length]. rewrite Hi, Hall.
          split; [reflexivity|]. split; [now rewrite Hlen|].
          unfold generated_names in *. cbn [combine filter fst snd].
          fold (unnamed r). destruct (unnamed r).
          -- destruct Hn as [Hname ->]. cbn [map List.length seq snd].
             rewrite Hname, Hgen. split; [reflexivity | lia].
          -- destruct Hn as [_ ->]. rewrite Hgen. split; [reflexivity|lia].
        * destruct IH as [-> Hall]. split; [reflexivity|].
          cbn [forallb]. rewrite Hall. apply andb_false_r.
      + destruct Hc as (-> & Hi & _). split; [reflexivity|].
        cbn [forallb]. now rewrite Hi. }
  destruct (for_each reqs create pulseIndex) as [[cmds|e] n'].
  - destruct H as (H1 & H2 & H3 & H4). repeat split; auto.
    rewrite H3. apply NoDup_default_names.
  - exact H.
Qed.

Lemma eqb_names (a b : PulseCommand) : _name a <> _name b -> eqb a b = false.
Proof.
  intros N. unfold eqb. apply String.eqb_neq in N. rewrite N.
  apply andb_false_r.
Qed.

Lemma generated_name_in_range (reqs : list request) :
  forall (n n' : nat) (cmds : list PulseCommand),
  for_each reqs create n = (Ok cmds, n') ->
  (n <= n')%nat
  /\ forall j rj cj,
       nth_error reqs j = Some rj -> nth_error cmds j = Some cj ->
       unnamed rj = true ->
       exists k, (n <= k < n')%nat /\ _name cj = default_name k.
Proof.
  induction reqs as [|r reqs IH]; intros n n' cmds E.
  - simpl in E. inversion E. subst. split; [lia|].
    intros [|j] rj cj H; discriminate H.
  - cbn [for_each] in E. unfold bind at 1 in E.
    pose proof (create_cases r n) as Hc.
    destruct (create r n) as [[c|e] n1]; [|discriminate].
    unfold bind at 1 in E.
    destruct (for_each reqs create n1) as [[cs|e] n2] eqn:E2; [|discriminate].
    inversion E. subst. clear E.
    destruct (IH n1 n' cs E2) as [Hle Hrest].
    destruct Hc as [_ Hc].
    assert (Hn1 : (n <= n1)%nat /\ (unnamed r = true ->
                    _name c = default_name n /\ n1 = S n)).
    { destruct (unnamed r); destruct Hc as [H1 H2]; subst; split;
        try lia; auto; discriminate. }
    destruct Hn1 as [Hle1 Hun]. split; [lia|].
    intros [|j] rj cj Hr Hcj Hu; simpl in Hr, Hcj.
    + inversion Hr. inversion Hcj. subst.
      destruct (Hun Hu) as [Hname ->]. exists n. split; [lia | exact Hname].
    + destruct (Hrest j rj cj Hr Hcj Hu) as [k [Hk Hname]].
      exists k. split; [lia | exact Hname].
Qed.

(** Commands without a name are never equal: of the commands created
    one after the other, any two whose requests had no name differ
    under [__eq__], also when their class and their duration are the
    same. *)
Theorem unnamed_commands_are_never_equal (reqs : list request) :
  forall (n n' : nat) (cmds : list PulseCommand) (i j : nat) ri rj ci cj,
  for_each reqs create n = (Ok cmds, n') ->
  i <> j ->
  nth_error reqs i = Some ri -> nth_error reqs j = Some rj ->
  nth_error cmds i = Some ci -> nth_error cmds j = Some cj ->
  unnamed ri = true -> unnamed rj = true ->
  eqb ci cj = false /\ eqb cj ci = false.
Proof.
  induction reqs as [|r reqs IH]; intros n n' cmds i j ri rj ci cj E Hij.
  - intros H. destruct i; discriminate H.
  - cbn [for_each] in E. unfold bind at 1 in E.
    pose proof (create_cases r n) as Hc.
    destruct (create r n) as [[c|e] n1]; [|discriminate].
    unfold bind at 1 in E.
    destruct (for_each reqs create n1) as [[cs|e] n2] eqn:E2; [|discriminate].
    inversion E. subst. clear E.
    destruct (generated_name_in_range reqs n1 n' cs E2) as [_ Hrest].
    destruct Hc as [_ Hc].
    assert (Hfirst : forall r' c' k rk ck,
              Some r = Some r' -> Some c = Some c' ->
              nth_error reqs k = Some rk -> nth_error cs k = Some ck ->
              unnamed r' = true -> unnamed rk = true ->
              _name c' <> _name ck).
    { intros r' c' k rk ck Er Ec Hr Hck Hu Hk. inversion Er. inversion Ec. subst.
      rewrite Hu in Hc. destruct Hc as [Hname ->].
      destruct (Hrest k rk ck Hr Hck Hk) as [m [Hm Hnm]].
      rewrite Hname, Hnm. intros Heq. apply default_name_inj in Heq. lia. }
    destruct i as [|i]; destruct j as [|j]; simpl; intros Hri Hrj Hci Hcj Hui Huj.
    + now elim Hij.
    + pose proof (Hfirst ri ci j rj cj Hri Hci Hrj Hcj Hui Huj) as N.
      split; apply eqb_names; congruence.
    + pose proof (Hfirst rj cj i ri ci Hrj Hcj Hri Hci Huj Hui) as N.
      split; apply eqb_names; congruence.
    + apply (IH n1 n' cs i j ri rj ci cj E2); auto.
Qed.

End pulse_command_proofs.

Lemma unnamed_commands_are_never_equal_witness :
  pulse_command.eqb (pulse_command.mkCommand "SamplePulse" 10 "p0")
                    (pulse_command.mkCommand "SamplePulse" 10 "p1") = false
  /\ pulse_command.eqb (pulse_command.mkCommand "SamplePulse" 10 "p1")
                       (pulse_command.mkCommand "SamplePulse" 10 "p0") = false.
Proof.
  apply (unnamed_commands_are_never_equal
           [("SamplePulse", pulse_command.PyInt 10, None);
            ("SamplePulse", pulse_command.PyInt 10, None)]
           0%nat 2%nat
           [pulse_command.mkCommand "SamplePulse" 10 "p0";
            pulse_command.mkCommand "SamplePulse" 10 "p1"]
           0%nat 1%nat
           ("SamplePulse", pulse_command.PyInt 10, None)
           ("SamplePulse", pulse_command.PyInt 10, None)
           (pulse_command.mkCommand "SamplePulse" 10 "p0")
           (pulse_command.mkCommand "SamplePulse" 10 "p1"));
    first [reflexivity | discriminate].
Defined.

(* ================================================================== *)
(** * Dictionaries *)

Section dictionaries.

Variables K V : Type.
Variable eqb : K -> K -> bool.
Hypothesis eqb_spec : forall a b, eqb a b = true <-> a = b.

Lemma eqb_refl_dict k : eqb k k = true.
Proof. now apply eqb_spec. Qed.

Lemma eqb_neq_dict a b : a <> b -> eqb a b = false.
Proof.
  intros N. destruct (eqb a b) eqn:E; [|reflexivity].
  apply eqb_spec in E. contradiction.
Qed.

Lemma dict_get_set_same k (v : V) d :
  dict_get eqb k (dict_set eqb k v d) = Some v.
Proof.
  induction d as [|[k' v'] d IH]; simpl.
  - now rewrite eqb_refl_dict.
  - destruct (eqb k' k) eqn:E; simpl; rewrite E; auto.
Qed.

Lemma dict_get_set_other k k' (v : V) d :
  k' <> k -> dict_get eqb k' (dict_set eqb k v d) = dict_get eqb k' d.
Proof.
  intros N. induction d as [|[k0 v0] d IH]; simpl.
  - rewrite eqb_neq_dict; auto.
  - destruct (eqb k0 k) eqn:E; simpl.
    + apply eqb_spec in E. subst k0. rewrite eqb_neq_dict; auto.
    + now rewrite IH.
Qed.

Lemma dict_get_In_keys k (d : list (K * V)) :
  dict_get eqb k d <> None <-> In k (dict_keys d).
Proof.
  induction d as [|[k0 v0] d IH]; simpl.
  - split; [congruence | tauto].
  - destruct (eqb k0 k) eqn:E.
    + apply eqb_spec in E. split; [auto | discriminate].
    + rewrite IH. split; [auto|]. intros [E'|H]; [|exact H].
      subst. rewrite eqb_refl_dict in E. discriminate.
Qed.

Lemma dict_get_None_keys k (d : list (K * V)) :
  dict_get eqb k d = None <-> ~ In k (dict_keys d).
Proof.
  rewrite <- dict_get_In_keys. destruct (dict_get eqb k d); split; auto;
    try congruence. intros H. exfalso. apply H. discriminate.
Qed.

Lemma dict_keys_set_present k (v : V) d :
  dict_get eqb k d <> None -> dict_keys (dict_set eqb k v d) = dict_keys d.
Proof.
  induction d as [|[k0 v0] d IH]; simpl.
  - congruence.
  - destruct (eqb k0 k) eqn:E; simpl; [reflexivity|].
    intros H. now rewrite IH.
Qed.

Lemma dict_keys_set_absent k (v : V) d :
  dict_get eqb k d = None -> dict_keys (dict_set eqb k v d) = dict_keys d ++ [k].
Proof.
  induction d as [|[k0 v0] d IH]; simpl.
  - reflexivity.
  - destruct (eqb k0 k) eqn:E; simpl; [discriminate|].
    intros H. now rewrite IH.
Qed.

Lemma NoDup_keys_set k (v : V) d :
  NoDup (dict_keys d) -> NoDup (dict_keys (dict_set eqb k v d)).
Proof.
  intros H. destruct (dict_get eqb k d) eqn:E.
  - rewrite dict_keys_set_present; [exact H | congruence].
  - rewrite dict_keys_set_absent by exact E.
    apply NoDup_app; [exact H | repeat constructor; simpl; tauto |].
    intros x Hx [<-|[]]. apply dict_get_None_keys in E. contradiction.
Qed.

Lemma dict_keys_remove_incl k (d : list (K * V)) x :
  In x (dict_keys (dict_remove eqb k d)) -> In x (dict_keys d).
Proof.
  induction d as [|[k0 v0] d IH]; simpl; [tauto|].
  destruct (eqb k0 k); simpl; tauto.
Qed.

Lemma NoDup_keys_remove k (d : list (K * V)) :
  NoDup (dict_keys d) -> NoDup (dict_keys (dict_remove eqb k d)).
Proof.
  induction d as [|[k0 v0] d IH]; simpl; [auto|].
  intros H. inversion H as [|? ? Hn Hd]; subst.
  destruct (eqb k0 k); simpl; [exact Hd|].
  constructor; [|auto]. intros Hin. apply Hn.
  eapply dict_keys_remove_incl; eauto.
Qed.

Lemma dict_get_remove_same k (d : list (K * V)) :
  NoDup (dict_keys d) -> dict_get eqb k (dict_remove eqb k d) = None.
Proof.
  induction d as [|[k0 v0] d IH]; simpl; [auto|].
  intros H. inversion H as [|? ? Hn Hd]; subst.
  destruct (eqb k0 k) eqn:E; simpl.
  - apply eqb_spec in E. subst. now apply dict_get_None_keys.
  - rewrite E. auto.
Qed.

Lemma dict_get_remove_other k k' (d : list (K * V)) :
  k' <> k -> dict_get eqb k' (dict_remove eqb k d) = dict_get eqb k' d.
Proof.
  intros N. induction d as [|[k0 v0] d IH]; simpl; [auto|].
  destruct (eqb k0 k) eqn:E; simpl.
  - apply eqb_spec in E. subst. rewrite eqb_neq_dict; auto.
  - now rewrite IH.
Qed.

Lemma dict_get_app_absent k k' (v : V) d :
  dict_get eqb k d = None ->
  dict_get eqb k' (d ++ [(k, v)]) =
  match dict_get eqb k' d with
  | Some x => Some x
  | None => if eqb k k' then Some v else None
  end.
Proof.
  intros _. induction d as [|[k0 v0] d IH]; simpl; [reflexivity|].
  destruct (eqb k0 k'); auto.
Qed.

End dictionaries.

(* ================================================================== *)
(** * The command definition *)

Lemma qubits_eqb_spec (a b : list Z) : cmd_def.qubits_eqb a b = true <-> a = b.
Proof.
  unfold cmd_def.qubits_eqb. destruct (list_eq_dec Z.eq_dec a b); split;
    auto; discriminate.
Qed.

Lemma ints_of_map_AInt (qs : list Z) :
  cmd_def.ints_of (map cmd_def.AInt qs) = Some qs.
Proof. induction qs as [|q qs IH]; simpl; [reflexivity | now rewrite IH]. Qed.

Lemma ints_of_Some (items : list cmd_def.pyarg) (qs : list Z) :
  cmd_def.ints_of items = Some qs -> items = map cmd_def.AInt qs.
Proof.
  revert qs. induction items as [|x items IH]; simpl; intros qs E.
  - now inversion E.
  - destruct x; try discriminate.
    destruct (cmd_def.ints_of items) as [zs|]; [|discriminate].
    inversion E. subst. simpl. f_equal. now apply IH.
Qed.

Lemma to_qubit_tuple_as_tuple (qs : list Z) :
  cmd_def._to_qubit_tuple (cmd_def.as_tuple qs) = Returns qs.
Proof.
  unfold cmd_def._to_qubit_tuple, cmd_def.as_tuple. simpl.
  now rewrite ints_of_map_AInt.
Qed.

(** [_to_qubit_tuple] returns the tuple [qs] of integers for
    exactly three kinds of argument: the single integer [q] (then
    [qs] is [(q,)]), a sequence of the integers [qs], and the empty
    string (then [qs] is empty).  For every other argument it raises
    the [QiskitError] of non-integer qubits. *)
Theorem to_qubit_tuple_accepts (x : cmd_def.pyarg) :
  (forall qs,
     cmd_def._to_qubit_tuple x = Returns qs <->
     (x = cmd_def.AInt (hd 0 qs) /\ qs = [hd 0 qs])
     \/ x = cmd_def.as_tuple qs
     \/ (x = cmd_def.AStr "" /\ qs = []))
  /\ ((forall qs, cmd_def._to_qubit_tuple x <> Returns qs) ->
      cmd_def._to_qubit_tuple x
      = Raises (QiskitError "All qubits must be integers.")).
Proof.
  split.
  - intros qs. split.
    + unfold cmd_def._to_qubit_tuple.
      destruct x as [z| |f|s|items]; simpl; try discriminate.
      * intros E. inversion E. left. now split.
      * destruct s as [|c s].
        -- simpl. intros E. inversion E. right. right. now split.
        -- simpl. discriminate.
      * destruct (cmd_def.ints_of items) as [zs|] eqn:E; [|discriminate].
        intros E'. inversion E'. subst. right. left.
        unfold cmd_def.as_tuple. f_equal. now apply ints_of_Some.
    + intros [[-> E]|[->|[-> ->]]].
      * rewrite E at 2. reflexivity.
      * apply to_qubit_tuple_as_tuple.
      * reflexivity.
  - intros H. unfold cmd_def._to_qubit_tuple in *.
    destruct (cmd_def.ints_of _) as [qs|]; [|reflexivity].
    exfalso. now apply (H qs).
Qed.

Section cmd_def_proofs.

Variables PS Params Bound : Type.
Variable PS_init : ref -> option string -> outcome PS.
Variable bind_parameters : PS -> Params -> outcome Bound.

Lemma has_lookup name qubits (d : cmd_def.cmd_dict PS) :
  cmd_def.has name qubits d =
  match cmd_def._to_qubit_tuple qubits with
  | Raises e => Raises e
  | Returns qs =>
      Returns (match cmd_def.lookup name qs d with
               | Some _ => true
               | None => false
               end)
  end.
Proof.
  unfold cmd_def.has, cmd_def.lookup, dict_has.
  destruct (cmd_def._to_qubit_tuple qubits); [|reflexivity].
  destruct (dict_get String.eqb name d); reflexivity.
Qed.

Lemma get_lookup name qubits params (d : cmd_def.cmd_dict PS) :
  cmd_def.get bind_parameters name qubits params d =
  match cmd_def._to_qubit_tuple qubits with
  | Raises e => Some (Raises e)
  | Returns qs =>
      match cmd_def.lookup name qs d with
      | Some v => Some (cmd_def.bind_or bind_parameters v params cmd_def.flatten_of)
      | None =>
          cmd_def.raise_formatted
            (str.format cmd_def.not_present [name; cmd_def.show_tuple qs] [])
      end
  end.
Proof.
  unfold cmd_def.get.
  destruct (cmd_def._to_qubit_tuple qubits) as [qs|e]; [|reflexivity].
  rewrite has_lookup, to_qubit_tuple_as_tuple.
  destruct (cmd_def.lookup name qs d); reflexivity.
Qed.

Lemma has_get_ext name qubits params (d d' : cmd_def.cmd_dict PS) :
  (forall qs, cmd_def._to_qubit_tuple qubits = Returns qs ->
     cmd_def.lookup name qs d' = cmd_def.lookup name qs d) ->
  cmd_def.has name qubits d' = cmd_def.has name qubits d
  /\ cmd_def.get bind_parameters name qubits params d'
     = cmd_def.get bind_parameters name qubits params d.
Proof.
  intros H. rewrite !has_lookup, !get_lookup.
  destruct (cmd_def._to_qubit_tuple qubits) as [qs|e]; [|auto].
  now rewrite (H qs eq_refl).
Qed.

Lemma lookup_setdefault name name' qs (d : cmd_def.cmd_dict PS) :
  cmd_def.lookup name' qs (snd (cmd_def.setdefault name d))
  = cmd_def.lookup name' qs d.
Proof.
  unfold cmd_def.setdefault, cmd_def.lookup.
  destruct (dict_get String.eqb name d) eqn:E; simpl; [reflexivity|].
  rewrite (dict_get_app_absent _ _ String.eqb name name' [] d E).
  destruct (dict_get String.eqb name' d); [reflexivity|].
  destruct (String.eqb name name'); reflexivity.
Qed.

Lemma setdefault_get name (d : cmd_def.cmd_dict PS) :
  dict_get String.eqb name (snd (cmd_def.setdefault name d))
  = Some (fst (cmd_def.setdefault name d)).
Proof.
  unfold cmd_def.setdefault.
  destruct (dict_get String.eqb name d) eqn:E; simpl; [exact E|].
  rewrite (dict_get_app_absent _ _ String.eqb name name [] d E), E.
  now rewrite String.eqb_refl.
Qed.

Lemma Forall_snd_set {K V} (eqb : K -> K -> bool) (Q : V -> Prop) k v d :
  Forall (fun e => Q (snd e)) d -> Q v ->
  Forall (fun e => Q (snd e)) (dict_set eqb k v d).
Proof.
  intros H Hv. induction H as [|[k0 v0] d H0 H IH]; simpl.
  - repeat constructor. exact Hv.
  - destruct (eqb k0 k); constructor; auto.
Qed.

Lemma Forall_snd_get {K V} (eqb : K -> K -> bool) (Q : V -> Prop) k v d :
  Forall (fun e => Q (snd e)) d -> dict_get eqb k d = Some v -> Q v.
Proof.
  intros H. induction H as [|[k0 v0] d H0 H IH]; simpl; [discriminate|].
  destruct (eqb k0 k); [|exact IH]. intros E. inversion E. now subst.
Qed.

Lemma setdefault_wf name (d : cmd_def.cmd_dict PS) :
  cmd_def.dict_wf d -> cmd_def.dict_wf (snd (cmd_def.setdefault name d)).
Proof.
  intros [Hk Hi]. unfold cmd_def.setdefault.
  destruct (dict_get String.eqb name d) eqn:E; simpl; [now split|].
  split.
  - unfold dict_keys. rewrite map_app. simpl.
    apply NoDup_app; [exact Hk | repeat constructor; simpl; tauto |].
    intros x Hx [<-|[]].
    apply (dict_get_None_keys _ _ String.eqb String.eqb_eq) in E. contradiction.
  - apply Forall_app. split; [exact Hi|]. repeat constructor.
Qed.

Lemma set_inner_wf name (inner inner' : list (list Z * cmd_def.stored PS))
    (d : cmd_def.cmd_dict PS) :
  cmd_def.dict_wf d ->
  dict_get String.eqb name d = Some inner ->
  NoDup (dict_keys inner') ->
  cmd_def.dict_wf (dict_set String.eqb name inner' d)
  /\ cmd_def.cmds (dict_set String.eqb name inner' d) = cmd_def.cmds d.
Proof.
  intros [Hk Hi] E Hn.
  assert (Hkeys : dict_keys (dict_set String.eqb name inner' d) = dict_keys d).
  { apply (dict_keys_set_present _ _ String.eqb). congruence. }
  split; [|exact Hkeys]. split.
  - now rewrite Hkeys.
  - apply (Forall_snd_set String.eqb (fun v => NoDup (dict_keys v)));
      assumption.
Qed.

Lemma lookup_set_inner name name' qs inner' (d : cmd_def.cmd_dict PS) :
  cmd_def.lookup name' qs (dict_set String.eqb name inner' d)
  = if String.eqb name' name then dict_get cmd_def.qubits_eqb qs inner'
    else cmd_def.lookup name' qs d.
Proof.
  unfold cmd_def.lookup. destruct (String.eqb name' name) eqn:E.
  - apply String.eqb_eq in E. subst.
    now rewrite (dict_get_set_same _ _ String.eqb String.eqb_eq).
  - apply String.eqb_neq in E.
    now rewrite (dict_get_set_other _ _ String.eqb String.eqb_eq) by exact E.
Qed.

(** What [add] does, in one equation. *)
Lemma add_run s name qubits schedule (d : cmd_def.cmd_dict PS) :
  cmd_def.add PS_init s name qubits schedule d =
  match cmd_def._to_qubit_tuple qubits with
  | Raises e => (Raises e, d)
  | Returns qs =>
      match cmd_def.wrap PS_init s schedule with
      | Raises e => (Raises e, snd (cmd_def.setdefault name d))
      | Returns v =>
          (Returns tt,
           dict_set String.eqb name
             (dict_set cmd_def.qubits_eqb qs v (fst (cmd_def.setdefault name d)))
             (snd (cmd_def.setdefault name d)))
      end
  end.
Proof.
  unfold cmd_def.add.
  destruct (cmd_def._to_qubit_tuple qubits); [|reflexivity].
  destruct (cmd_def.setdefault name d). reflexivity.
Qed.

Lemma add_lookup s name qubits schedule (d : cmd_def.cmd_dict PS) name' qs' :
  cmd_def.lookup name' qs' (snd (cmd_def.add PS_init s name qubits schedule d)) =
  match cmd_def._to_qubit_tuple qubits, cmd_def.wrap PS_init s schedule with
  | Returns qs, Returns v =>
      if String.eqb name' name && cmd_def.qubits_eqb qs' qs then Some v
      else cmd_def.lookup name' qs' d
  | _, _ => cmd_def.lookup name' qs' d
  end.
Proof.
  rewrite add_run.
  destruct (cmd_def._to_qubit_tuple qubits) as [qs|e]; [|reflexivity].
  destruct (cmd_def.wrap PS_init s schedule) as [v|e]; simpl.
  - rewrite lookup_set_inner.
    destruct (String.eqb name' name) eqn:En; simpl.
    + apply String.eqb_eq in En. subst name'.
      destruct (cmd_def.qubits_eqb qs' qs) eqn:Eq.
      * apply qubits_eqb_spec in Eq. subst.
        apply (dict_get_set_same _ _ cmd_def.qubits_eqb qubits_eqb_spec).
      * rewrite (dict_get_set_other _ _ cmd_def.qubits_eqb qubits_eqb_spec).
        -- rewrite <- (lookup_setdefault name name qs' d).
           unfold cmd_def.lookup. now rewrite setdefault_get.
        -- intros ->. rewrite (proj2 (qubits_eqb_spec qs qs) eq_refl) in Eq.
           discriminate.
    + apply lookup_setdefault.
  - apply lookup_setdefault.
Qed.

Lemma add_wf s name qubits schedule (d : cmd_def.cmd_dict PS) :
  cmd_def.dict_wf d ->
  cmd_def.dict_wf (snd (cmd_def.add PS_init s name qubits schedule d)).
Proof.
  intros H. rewrite add_run.
  destruct (cmd_def._to_qubit_tuple qubits) as [qs|e]; [|exact H].
  pose proof (setdefault_wf name d H) as H1.
  destruct (cmd_def.wrap PS_init s schedule) as [v|e]; simpl; [|exact H1].
  eapply set_inner_wf; [exact H1 | apply setdefault_get |].
  apply NoDup_keys_set; [apply qubits_eqb_spec|].
  destruct H1 as [_ Hi].
  exact (Forall_snd_get String.eqb (fun v => NoDup (dict_keys v)) name _ _ Hi
           (setdefault_get name d)).
Qed.

Lemma add_cmds s name qubits schedule (d : cmd_def.cmd_dict PS) :
  fst (cmd_def.add PS_init s name qubits schedule d) = Returns tt ->
  In name (cmd_def.cmds (snd (cmd_def.add PS_init s name qubits schedule d)))
  /\ incl (cmd_def.cmds d)
       (cmd_def.cmds (snd (cmd_def.add PS_init s name qubits schedule d))).
Proof.
  rewrite add_run.
  destruct (cmd_def._to_qubit_tuple qubits) as [qs|e]; [|discriminate].
  destruct (cmd_def.wrap PS_init s schedule) as [v|e]; simpl; [|discriminate].
  intros _. unfold cmd_def.cmds.
  rewrite (dict_keys_set_present _ _ String.eqb)
    by (rewrite setdefault_get; discriminate).
  split.
  - apply (dict_get_In_keys _ _ String.eqb String.eqb_eq).
    rewrite setdefault_get. discriminate.
  - unfold cmd_def.setdefault.
    destruct (dict_get String.eqb name d); simpl; [apply incl_refl|].
    unfold dict_keys. rewrite map_app. now apply incl_appl, incl_refl.
Qed.

(** [add] either raises and changes the answer of [has] and
    [get] for no key, or returns; then [has] of the added key is
    true, [get] of it binds the parameters of what was stored, the
    name is among [cmds()] and [cmd_qubits] of the name returns the
    command names [cmds()] (not the qubits), and [has] and [get] of
    every other key answer as before. *)
Theorem add_registers_the_command s name qubits schedule (d : cmd_def.cmd_dict PS) :
  match cmd_def.add PS_init s name qubits schedule d with
  | (Returns _, d') =>
      cmd_def.has name qubits d' = Returns true
      /\ (exists v,
            cmd_def.wrap PS_init s schedule = Returns v
            /\ forall params,
                 cmd_def.get bind_parameters name qubits params d'
                 = Some (cmd_def.bind_or bind_parameters v params
                           cmd_def.flatten_of))
      /\ In name (cmd_def.cmds d')
      /\ cmd_def.cmd_qubits name d' = Returns (cmd_def.cmds d')
      /\ (forall name' qubits' params,
            name' <> name
            \/ cmd_def._to_qubit_tuple qubits' <> cmd_def._to_qubit_tuple qubits ->
            cmd_def.has name' qubits' d' = cmd_def.has name' qubits' d
            /\ cmd_def.get bind_parameters name' qubits' params d'
               = cmd_def.get bind_parameters name' qubits' params d)
  | (Raises _, d') =>
      forall name' qubits' params,
        cmd_def.has name' qubits' d' = cmd_def.has name' qubits' d
        /\ cmd_def.get bind_parameters name' qubits' params d'
           = cmd_def.get bind_parameters name' qubits' params d
  end.
Proof.
  pose proof (add_lookup s name qubits schedule d) as Hl.
  pose proof (add_cmds s name qubits schedule d) as Hc.
  pose proof (add_run s name qubits schedule d) as Hr.
  destruct (cmd_def.add PS_init s name qubits schedule d) as [[[]|e] d'];
    simpl in Hl, Hc.
  - destruct (cmd_def._to_qubit_tuple qubits) as [qs|e] eqn:Eq;
      [|discriminate].
    destruct (cmd_def.wrap PS_init s schedule) as [v|e] eqn:Ew;
      [|discriminate].
    assert (Hsame : cmd_def.lookup name qs d' = Some v).
    { rewrite Hl, String.eqb_refl. simpl.
      now rewrite (proj2 (qubits_eqb_spec qs qs) eq_refl). }
    destruct (Hc eq_refl) as [Hin _].
    split; [rewrite has_lookup, Eq, Hsame; reflexivity|].
    split; [exists v; split; [reflexivity|]; intros params;
            rewrite get_lookup, Eq, Hsame; reflexivity|].
    split; [exact Hin|].
    split.
    + unfold cmd_def.cmd_qubits.
      apply (dict_get_In_keys _ _ String.eqb String.eqb_eq) in Hin.
      destruct (dict_get String.eqb name d'); [reflexivity | congruence].
    + intros name' qubits' params Hne. apply has_get_ext.
      intros qs' Eq'. rewrite Hl.
      destruct (String.eqb name' name) eqn:En; [|reflexivity].
      destruct (cmd_def.qubits_eqb qs' qs) eqn:Eqs; [|reflexivity].
      apply String.eqb_eq in En. apply qubits_eqb_spec in Eqs. subst.
      destruct Hne as [N|N]; [now elim N | rewrite Eq' in N; now elim N].
  - intros name' qubits' params. apply has_get_ext. intros qs' _.
    rewrite Hl.
    destruct (cmd_def._to_qubit_tuple qubits) as [qs|e0]; [|reflexivity].
    destruct (cmd_def.wrap PS_init s schedule) as [v|e1]; [|reflexivity].
    discriminate.
Qed.

Lemma has_true_lookup name qubits (d : cmd_def.cmd_dict PS) :
  cmd_def.has name qubits d = Returns true ->
  exists qs inner v,
    cmd_def._to_qubit_tuple qubits = Returns qs
    /\ dict_get String.eqb name d = Some inner
    /\ dict_get cmd_def.qubits_eqb qs inner = Some v.
Proof.
  unfold cmd_def.has, dict_has.
  destruct (cmd_def._to_qubit_tuple qubits) as [qs|e]; [|discriminate].
  destruct (dict_get String.eqb name d) as [inner|]; [|discriminate].
  destruct (dict_get cmd_def.qubits_eqb qs inner) as [v|] eqn:E;
    [|discriminate].
  intros _. now exists qs, inner, v.
Qed.

(** On a dictionary without repeated keys, [pop] of a key that
    [has] reports binds the parameters of the value that [get] would
    bind (a value that is no [ParameterizedSchedule] is returned as
    it is, where [get] returns its [flatten()]), and removes that key
    and no other: afterwards [has] of the key is false, [has] and
    [get] of every other key answer as before, and the command name
    stays among [cmds()] even when it has no qubits left. *)
Theorem pop_removes_the_command name qubits params (d : cmd_def.cmd_dict PS) :
  cmd_def.dict_wf d ->
  cmd_def.has name qubits d = Returns true ->
  exists v d',
    cmd_def.pop bind_parameters name qubits params d
    = (Some (cmd_def.bind_or bind_parameters v params cmd_def.plain), d')
    /\ cmd_def.get bind_parameters name qubits params d
       = Some (cmd_def.bind_or bind_parameters v params cmd_def.flatten_of)
    /\ cmd_def.has name qubits d' = Returns false
    /\ cmd_def.cmds d' = cmd_def.cmds d
    /\ cmd_def.dict_wf d'
    /\ (forall name' qubits' params',
          name' <> name
          \/ cmd_def._to_qubit_tuple qubits' <> cmd_def._to_qubit_tuple qubits ->
          cmd_def.has name' qubits' d' = cmd_def.has name' qubits' d
          /\ cmd_def.get bind_parameters name' qubits' params' d'
             = cmd_def.get bind_parameters name' qubits' params' d).
Proof.
  intros Hwf Hhas.
  destruct (has_true_lookup name qubits d Hhas) as (qs & inner & v & Eq & En & Ev).
  assert (Hinner : NoDup (dict_keys inner)).
  { destruct Hwf as [_ Hi].
    exact (Forall_snd_get String.eqb (fun v => NoDup (dict_keys v)) name _ _
             Hi En). }
  destruct (set_inner_wf name inner (dict_remove cmd_def.qubits_eqb qs inner)
              d Hwf En (NoDup_keys_remove _ _ cmd_def.qubits_eqb qs inner Hinner))
    as [Hwf' Hcmds].
  exists v, (dict_set String.eqb name (dict_remove cmd_def.qubits_eqb qs inner) d).
  split.
  { unfold cmd_def.pop. rewrite Eq, has_lookup, to_qubit_tuple_as_tuple.
    unfold cmd_def.lookup. rewrite En, Ev. reflexivity. }
  split.
  { rewrite get_lookup, Eq. unfold cmd_def.lookup. now rewrite En, Ev. }
  split.
  { rewrite has_lookup, Eq, lookup_set_inner, String.eqb_refl.
    now rewrite (dict_get_remove_same _ _ cmd_def.qubits_eqb qubits_eqb_spec
                   qs inner Hinner). }
  split; [exact Hcmds|]. split; [exact Hwf'|].
  intros name' qubits' params' Hne. apply has_get_ext. intros qs' Eq'.
  rewrite lookup_set_inner.
  destruct (String.eqb name' name) eqn:E; [|reflexivity].
  apply String.eqb_eq in E. subst name'.
  unfold cmd_def.lookup. rewrite En.
  apply (dict_get_remove_other _ _ cmd_def.qubits_eqb qubits_eqb_spec).
  intros ->. destruct Hne as [N|N]; [now elim N|].
  rewrite Eq, Eq' in N. now elim N.
Qed.

(** For a key that [has] reports absent, [get] raises the
    [PulseError] that names the command and the qubits, while [pop]
    raises an [IndexError] (its message has positional fields and is
    formatted with keywords only) and leaves the dictionary as it
    was. *)
Theorem missing_command_errors name qubits params (d : cmd_def.cmd_dict PS) :
  cmd_def.has name qubits d = Returns false ->
  exists qs,
    cmd_def._to_qubit_tuple qubits = Returns qs
    /\ cmd_def.get bind_parameters name qubits params d
       = Some (Raises (Builtin (PulseError
           (String.append "Command "
              (String.append name
                 (String.append " for qubits "
                    (String.append (cmd_def.show_tuple qs)
                       " is not presentin CmdDef")))))))
    /\ cmd_def.pop bind_parameters name qubits params d
       = (Some (Raises (Builtin IndexError)), d).
Proof.
  intros H.
  assert (H' := H). rewrite has_lookup in H'.
  destruct (cmd_def._to_qubit_tuple qubits) as [qs|e] eqn:Eq; [|discriminate].
  exists qs. split; [reflexivity|].
  destruct (cmd_def.lookup name qs d) eqn:El; [discriminate|].
  split.
  - rewrite get_lookup, Eq, El. reflexivity.
  - unfold cmd_def.pop. rewrite Eq, has_lookup, to_qubit_tuple_as_tuple, El.
    reflexivity.
Qed.

Lemma add_all_spec s schedules :
  forall d0 : cmd_def.cmd_dict PS,
  cmd_def.dict_wf d0 ->
  match cmd_def.add_all PS_init s schedules d0 with
  | (Returns _, d) =>
      cmd_def.dict_wf d
      /\ (forall name qs, cmd_def.lookup name qs d0 <> None ->
            cmd_def.lookup name qs d <> None)
      /\ incl (cmd_def.cmds d0) (cmd_def.cmds d)
      /\ forall name qubits schedule,
           In ((name, qubits), schedule) schedules ->
           cmd_def.has name (cmd_def.ASeq qubits) d = Returns true
           /\ In name (cmd_def.cmds d)
  | (Raises e, _) =>
      exists name qubits schedule,
        In ((name, qubits), schedule) schedules
        /\ (cmd_def._to_qubit_tuple (cmd_def.ASeq qubits) = Raises e
            \/ cmd_def.wrap PS_init s schedule = Raises e)
  end.
Proof.
  induction schedules as [|[[name qubits] schedule] rest IH]; intros d0 Hwf.
  - simpl. split; [exact Hwf|]. split; [auto|]. split; [apply incl_refl|].
    intros ? ? ? [].
  - cbn [cmd_def.add_all].
    pose proof (add_wf s name (cmd_def.ASeq qubits) schedule d0 Hwf) as Hwf1.
    pose proof (add_lookup s name (cmd_def.ASeq qubits) schedule d0) as Hl.
    pose proof (add_cmds s name (cmd_def.ASeq qubits) schedule d0) as Hc.
    pose proof (add_run s name (cmd_def.ASeq qubits) schedule d0) as Hr.
    destruct (cmd_def.add PS_init s name (cmd_def.ASeq qubits) schedule d0)
      as [[[]|e] d1]; simpl in Hwf1, Hl, Hc.
    + destruct (cmd_def._to_qubit_tuple (cmd_def.ASeq qubits)) as [qs|e] eqn:Eq;
        [|discriminate].
      destruct (cmd_def.wrap PS_init s schedule) as [v|e] eqn:Ew;
        [|discriminate].
      destruct (Hc eq_refl) as [Hin Hincl].
      assert (Hkeep : forall name' qs', cmd_def.lookup name' qs' d0 <> None ->
                        cmd_def.lookup name' qs' d1 <> None).
      { intros name' qs' H. rewrite Hl.
        destruct (String.eqb name' name && cmd_def.qubits_eqb qs' qs);
          [discriminate | exact H]. }
      assert (Hnew : cmd_def.lookup name qs d1 <> None).
      { rewrite Hl, String.eqb_refl. simpl.
        rewrite (proj2 (qubits_eqb_spec qs qs) eq_refl). discriminate. }
      specialize (IH d1 Hwf1).
      destruct (cmd_def.add_all PS_init s rest d1) as [[[]|e] d].
      * destruct IH as (Hwf2 & Hk2 & Hi2 & Hall).
        split; [exact Hwf2|].
        split; [intros; apply Hk2, Hkeep; assumption|].
        split; [eapply incl_tran; eassumption|].
        intros name' qubits' schedule' [E|Hin'].
        -- inversion E. subst. split.
           ++ rewrite has_lookup, Eq.
              destruct (cmd_def.lookup name' qs d) eqn:E'; [reflexivity|].
              now elim (Hk2 name' qs Hnew).
           ++ apply Hi2, Hin.
        -- exact (Hall name' qubits' schedule' Hin').
      * destruct IH as (n' & q' & sc' & Hin' & H').
        exists n', q', sc'. split; [now right | exact H'].
    + exists name, qubits, schedule. split; [now left|].
      destruct (cmd_def._to_qubit_tuple (cmd_def.ASeq qubits)) as [qs|e0].
      * destruct (cmd_def.wrap PS_init s schedule) as [v|e1];
          [discriminate|]. right. now inversion Hr.
      * left. now inversion Hr.
Qed.

(** [CmdDef(schedules)] either raises, and then some key of
    [schedules] has qubits that are not all integers or a schedule
    that cannot be wrapped; or it returns a dictionary without
    repeated keys in which [has] is true of every key of [schedules]
    and every command name of [schedules] is among [cmds()]. *)
Theorem init_registers_every_key s schedules :
  match cmd_def.init PS_init s schedules with
  | (Returns _, d) =>
      cmd_def.dict_wf d
      /\ forall name qubits schedule,
           In ((name, qubits), schedule) schedules ->
           cmd_def.has name (cmd_def.ASeq qubits) d = Returns true
           /\ In name (cmd_def.cmds d)
  | (Raises e, _) =>
      exists name qubits schedule,
        In ((name, qubits), schedule) schedules
        /\ (cmd_def._to_qubit_tuple (cmd_def.ASeq qubits) = Raises e
            \/ cmd_def.wrap PS_init s schedule = Raises e)
  end.
Proof.
  unfold cmd_def.init.
  assert (H0 : cmd_def.dict_wf (@nil (string * list (list Z * cmd_def.stored PS)))).
  { split; constructor. }
  pose proof (add_all_spec s schedules [] H0) as H.
  destruct (cmd_def.add_all PS_init s schedules []) as [[[]|e] d].
  - destruct H as (Hwf & _ & _ & Hall). now split.
  - exact H.
Qed.

End cmd_def_proofs.

Lemma pop_removes_the_command_witness :
  exists v d',
    cmd_def.pop bind_nothing "x" (cmd_def.AInt 0) tt x_on_qubit_0
    = (Some (cmd_def.bind_or bind_nothing v tt cmd_def.plain), d')
    /\ cmd_def.get bind_nothing "x" (cmd_def.AInt 0) tt x_on_qubit_0
       = Some (cmd_def.bind_or bind_nothing v tt cmd_def.flatten_of)
    /\ cmd_def.has "x" (cmd_def.AInt 0) d' = Returns false
    /\ cmd_def.cmds d' = cmd_def.cmds x_on_qubit_0
    /\ cmd_def.dict_wf d'
    /\ (forall name' qubits' params',
          name' <> "x"
          \/ cmd_def._to_qubit_tuple qubits'
             <> cmd_def._to_qubit_tuple (cmd_def.AInt 0) ->
          cmd_def.has name' qubits' d' = cmd_def.has name' qubits' x_on_qubit_0
          /\ cmd_def.get bind_nothing name' qubits' params' d'
             = cmd_def.get bind_nothing name' qubits' params' x_on_qubit_0).
Proof.
  apply (pop_removes_the_command string unit string bind_nothing
           "x" (cmd_def.AInt 0) tt x_on_qubit_0).
  - split; repeat constructor; intros [].
  - reflexivity.
Defined.

Lemma missing_command_errors_witness :
  exists qs,
    cmd_def._to_qubit_tuple (cmd_def.ASeq [cmd_def.AInt 0; cmd_def.AInt 1])
    = Returns qs
    /\ cmd_def.get bind_nothing "cx"
         (cmd_def.ASeq [cmd_def.AInt 0; cmd_def.AInt 1]) tt x_on_qubit_0
       = Some (Raises (Builtin (PulseError
           (String.append "Command "
              (String.append "cx"
                 (String.append " for qubits "
                    (String.append (cmd_def.show_tuple qs)
                       " is not presentin CmdDef")))))))
    /\ cmd_def.pop bind_nothing "cx"
         (cmd_def.ASeq [cmd_def.AInt 0; cmd_def.AInt 1]) tt x_on_qubit_0
       = (Some (Raises (Builtin IndexError)), x_on_qubit_0).
Proof.
  apply (missing_command_errors string unit string bind_nothing "cx"
           (cmd_def.ASeq [cmd_def.AInt 0; cmd_def.AInt 1]) tt x_on_qubit_0).
  reflexivity.
Defined.
